(** * Verification of the news discovery pipeline of masterback

    Shallow embedding of the Python services
    [app/services/news_fetcher.py], [app/services/rank.py],
    [app/services/query_builder.py], [app/services/ingest_auto.py] and
    [app/scheduler.py].

    Modelling conventions.
    - Python [str] values are Rocq [string]s (sequences of bytes); the
      case and whitespace functions of Python are taken on their ASCII
      part ([str.lower] maps A-Z to a-z, [str.strip] removes the ASCII
      characters for which [str.isspace] holds).
    - A Python dict used as a record ([it.get("url")]) is a Rocq record of
      [option] fields: [None] is a missing key or a [None] value.
    - Timestamps are integers (seconds), calendar dates are integers
      (day numbers); [published_at] is an [option Z].
    - Network calls are parameters of the functions that make them; an
      exception caught by the caller is the [None] result of the call. *)

From Stdlib Require Import String Ascii List ZArith Lia Bool Arith Permutation.
Import ListNotations.
Open Scope string_scope.

(* ------------------------------------------------------------------ *)
(** ** Python string operations (ASCII part) *)

Module Py.
Local Open Scope nat_scope.

Definition is_space (c : ascii) : bool :=
  let n := nat_of_ascii c in
  ((9 <=? n) && (n <=? 13)) || ((28 <=? n) && (n <=? 32)).

Definition lower_char (c : ascii) : ascii :=
  let n := nat_of_ascii c in
  if (65 <=? n) && (n <=? 90) then ascii_of_nat (n + 32) else c.

(** [s.lower()] *)
Fixpoint lower (s : string) : string :=
  match s with
  | EmptyString => EmptyString
  | String c s' => String (lower_char c) (lower s')
  end.

(** [s.lstrip()] *)
Fixpoint lstrip (s : string) : string :=
  match s with
  | EmptyString => EmptyString
  | String c s' => if is_space c then lstrip s' else s
  end.

Fixpoint rev_str (s : string) (acc : string) : string :=
  match s with
  | EmptyString => acc
  | String c s' => rev_str s' (String c acc)
  end.

Definition rstrip (s : string) : string :=
  rev_str (lstrip (rev_str s EmptyString)) EmptyString.

(** [s.strip()] *)
Definition strip (s : string) : string := rstrip (lstrip s).

(** [p.startswith(q)] written as [prefix q p] *)
Fixpoint starts_with (pre s : string) : bool :=
  match pre, s with
  | EmptyString, _ => true
  | String c p', String d s' => Ascii.eqb c d && starts_with p' s'
  | String _ _, EmptyString => false
  end.

(** [sub in s] *)
Fixpoint contains (sub s : string) : bool :=
  starts_with sub s ||
  match s with
  | EmptyString => false
  | String _ s' => contains sub s'
  end.

(** [s.endswith(suf)] *)
Definition ends_with (s suf : string) : bool :=
  starts_with (rev_str suf EmptyString) (rev_str s EmptyString).

(** [s.partition(c)] on a one-character separator: [Some (before, after)]
    when [c] occurs, [None] otherwise. *)
Fixpoint split_once (c : ascii) (s : string) : option (string * string) :=
  match s with
  | EmptyString => None
  | String d s' =>
      if Ascii.eqb c d then Some (EmptyString, s')
      else match split_once c s' with
           | Some (b, a) => Some (String d b, a)
           | None => None
           end
  end.

(** [s.split(c)] on a one-character separator. *)
Fixpoint split_all_aux (c : ascii) (s : string) (cur : string) : list string :=
  match s with
  | EmptyString => [rev_str cur EmptyString]
  | String d s' =>
      if Ascii.eqb c d then rev_str cur EmptyString :: split_all_aux c s' EmptyString
      else split_all_aux c s' (String d cur)
  end.

Definition split_all (c : ascii) (s : string) : list string :=
  split_all_aux c s EmptyString.

Definition is_empty (s : string) : bool :=
  match s with EmptyString => true | _ => false end.

(** Python truthiness of [x or ''] for an optional string. *)
Definition or_empty (o : option string) : string :=
  match o with Some s => s | None => EmptyString end.

End Py.

(** Order-preserving sub-sequences, and positions in a list. *)
Module Seq.

Inductive subseq {A} : list A -> list A -> Prop :=
| subseq_nil : subseq [] []
| subseq_keep x l1 l2 : subseq l1 l2 -> subseq (x :: l1) (x :: l2)
| subseq_skip x l1 l2 : subseq l1 l2 -> subseq l1 (x :: l2).

(** [l.index(x)] for strings; [length l] when absent. *)
Fixpoint index_of (x : string) (l : list string) : nat :=
  match l with
  | [] => 0
  | y :: r => if String.eqb x y then 0 else S (index_of x r)
  end.

End Seq.

(* ------------------------------------------------------------------ *)
(** ** [urllib.parse]: the parts [clean_link] uses *)

Module UrlLib.
Import Py.
Local Open Scope nat_scope.

(** [parse_qs(query)] with its defaults ([keep_blank_values=False],
    [strict_parsing=False], separator ['&']): the pairs of a query string,
    in order, with [unquote] the percent-decoding of one component
    (['+'] read as a space). A pair without ['='] or with an empty value is
    skipped. *)
Section ParseQs.
Variable unquote : string -> string.

Definition parse_qsl (query : string) : list (string * string) :=
  flat_map (fun nv =>
    if is_empty nv then []
    else match split_once "=" nv with
         | None => []
         | Some (n, v) => if is_empty v then [] else [(unquote n, unquote v)]
         end) (split_all "&" query).

(** [parse_qs(query).get(name, [])]: the values of [name], in order. *)
Definition qs_get (query name : string) : list string :=
  map snd (filter (fun p => String.eqb (fst p) name) (parse_qsl query)).
End ParseQs.

Definition scheme_char (c : ascii) : bool :=
  let n := nat_of_ascii c in
  ((97 <=? n) && (n <=? 122)) || ((65 <=? n) && (n <=? 90)) ||
  ((48 <=? n) && (n <=? 57)) || (n =? 43) || (n =? 45) || (n =? 46).

Definition is_alpha (c : ascii) : bool :=
  let n := nat_of_ascii c in ((97 <=? n) && (n <=? 122)) || ((65 <=? n) && (n <=? 90)).

(** Splits off a scheme: [url[:i]] when [i = url.find(':') > 0], the first
    character is a letter and all of [url[:i]] are scheme characters. *)
Definition strip_scheme (url : string) : string :=
  match url with
  | String c _ =>
      if is_alpha c then
        match split_once ":" url with
        | Some (sch, rest) =>
            if forallb scheme_char (list_ascii_of_string sch) && negb (is_empty sch)
            then rest else url
        | None => url
        end
      else url
  | EmptyString => url
  end.

(** [_splitnetloc(url, 2)]: the netloc runs to the first of ['/?#']. *)
Fixpoint split_netloc (s : string) : string * string :=
  match s with
  | EmptyString => (EmptyString, EmptyString)
  | String c s' =>
      if Ascii.eqb c "/" || Ascii.eqb c "?" || Ascii.eqb c "#" then (EmptyString, s)
      else let (n, r) := split_netloc s' in (String c n, r)
  end.

Definition remove_unsafe (s : string) : string :=
  string_of_list_ascii
    (filter (fun c => negb (Ascii.eqb c "009"%char || Ascii.eqb c "010"%char
                                                 || Ascii.eqb c "013"%char))
            (list_ascii_of_string s)).

Fixpoint lstrip_c0 (s : string) : string :=
  match s with
  | EmptyString => EmptyString
  | String c s' => if nat_of_ascii c <=? 32 then lstrip_c0 s' else s
  end.

(** [urlparse(url)], returning [(netloc, query)]; [None] is the
    [ValueError] raised for an unbalanced bracket in the netloc. The
    validation of a bracketed IPv6 host by the [ipaddress] module is not
    modelled (a bracketed host is accepted). *)
Definition urlparse (url0 : string) : option (string * string) :=
  let url1 := remove_unsafe (lstrip_c0 url0) in
  let url2 := strip_scheme url1 in
  let '(netloc, rest) :=
      if starts_with "//" url2 then split_netloc (substring 2 (String.length url2) url2)
      else (EmptyString, url2) in
  let lb := contains "[" netloc in
  let rb := contains "]" netloc in
  if (lb && negb rb) || (rb && negb lb) then None
  else
    let beforefrag := match split_once "#" rest with
                      | Some (b, _) => b | None => rest end in
    let query := match split_once "?" beforefrag with
                 | Some (_, q) => q | None => EmptyString end in
    Some (netloc, query).

(** [unquote_plus] on ASCII input without percent escapes: ['+'] becomes a
    space; a percent escape is left as it is. *)
Definition unquote_plus (s : string) : string :=
  string_of_list_ascii
    (map (fun c => if Ascii.eqb c "+" then " "%char else c) (list_ascii_of_string s)).

End UrlLib.

(* ------------------------------------------------------------------ *)
(** ** [news_fetcher.clean_link] *)

Module NewsFetcher.
Import Py.

Section CleanLink.
(** The URL parser ([urllib.parse.urlparse], giving netloc and query;
    [None] when it raises) and the percent-decoder used by [parse_qs]. *)
Variable urlparse : string -> option (string * string).
Variable unquote : string -> string.

(** [clean_link(url)]: the [try]/[except Exception: pass] returns [url]
    when parsing raises. *)
Definition clean_link (url : string) : string :=
  match urlparse url with
  | None => url
  | Some (netloc, query) =>
      if ends_with netloc "news.google.com" then
        match UrlLib.qs_get unquote query "url" with
        | v :: _ => v
        | [] => url
        end
      else url
  end.
End CleanLink.

(** [clean_link] with the [urllib.parse] model. *)
Definition clean_link_py (url : string) : string :=
  clean_link UrlLib.urlparse UrlLib.unquote_plus url.

(** A feed entry as [fetch_news] returns it ([FetchedItem]). *)
Record fetched_item := mk_fetched {
  f_title : string;
  f_link : string;
  f_source : option string;
  f_published_at : option Z;
  f_summary : string
}.

(** A candidate dict [{title, url, summary, published_at, source}];
    [snippet] is what [item.get("snippet")] returns. *)
Record item := mk_item {
  title : option string;
  url : option string;
  summary : option string;
  snippet : option string;
  published_at : option Z;
  source : option string
}.

(** The dict built from a [FetchedItem] in [_gn_fetch] and
    [_site_backfill]: it has no [snippet] key. *)
Definition to_dict (it : fetched_item) : item :=
  {| title := Some (f_title it); url := Some (f_link it);
     summary := Some (f_summary it); snippet := None;
     published_at := f_published_at it; source := f_source it |}.

(** [_dedupe(items)]: keyed by [(url or '').strip().lower()], empty keys
    dropped, first occurrence kept. *)
Fixpoint dedupe_from (seen : list string) (items : list item) : list item :=
  match items with
  | [] => []
  | it :: rest =>
      let u := lower (strip (or_empty (url it))) in
      if negb (is_empty u) && negb (existsb (String.eqb u) seen)
      then it :: dedupe_from (u :: seen) rest
      else dedupe_from seen rest
  end.

Definition _dedupe (items : list item) : list item := dedupe_from [] items.

(** [list.sort(key=k, reverse=True)]: the stable sort by descending key
    (elements with equal keys keep their order), as an insertion sort. *)
Fixpoint insert_desc {A} (k : A -> Z) (x : A) (l : list A) : list A :=
  match l with
  | [] => [x]
  | y :: r => if (k y <? k x)%Z then x :: l else y :: insert_desc k x r
  end.

Definition sort_desc {A} (k : A -> Z) (l : list A) : list A :=
  fold_left (fun acc x => insert_desc k x acc) l [].

(** A list is in non-increasing order of [k]. *)
Fixpoint sorted_desc {A} (k : A -> Z) (l : list A) : bool :=
  match l with
  | x :: ((y :: _) as r) => (k y <=? k x)%Z && sorted_desc k r
  | _ => true
  end.

(** [lst[:n]] for an integer [n]. *)
Definition py_take {A} (n : Z) (l : list A) : list A :=
  if (0 <=? n)%Z then firstn (Z.to_nat n) l
  else firstn (List.length l - Z.to_nat (- n)) l.

End NewsFetcher.

(* ------------------------------------------------------------------ *)
(** ** [rank.score_item] *)

Module Rank.
Import Py NewsFetcher.

(** The loop over [aliases]: +5 for an alias in the title, else +3 for an
    alias in the snippet (the score is a float; its values here are
    integers, written as [Z]). *)
Fixpoint alias_loop (ttl snip : string) (aliases : list string) (s : Z) : Z :=
  match aliases with
  | [] => s
  | a :: rest =>
      let al := lower a in
      let s' := if negb (is_empty al) && contains al ttl then (s + 5)%Z
                else if negb (is_empty al) && contains al snip then (s + 3)%Z
                else s in
      alias_loop ttl snip rest s'
  end.

(** The loop over [city_keywords]: +2 in the title, else +1 in the
    snippet; [c or ''] reads a [None] entry as the empty string. *)
Fixpoint city_loop (ttl snip : string) (cities : list (option string)) (s : Z) : Z :=
  match cities with
  | [] => s
  | c :: rest =>
      let cl := lower (or_empty c) in
      let s' := if negb (is_empty cl) && contains cl ttl then (s + 2)%Z
                else if negb (is_empty cl) && contains cl snip then (s + 1)%Z
                else s in
      city_loop ttl snip rest s'
  end.

Definition score_item (it : item) (aliases : list string)
    (city_keywords : option (list (option string))) : Z :=
  let ttl := lower (or_empty (title it)) in
  let snip := lower (or_empty (snippet it)) in
  let s := alias_loop ttl snip aliases 0 in
  city_loop ttl snip (match city_keywords with Some l => l | None => [] end) s.

(** The ranking rule read per keyword: the points of one alias and of one
    city keyword, against lower-cased title and snippet. *)
Definition alias_points (ttl snip a : string) : Z :=
  let al := lower a in
  if is_empty al then 0%Z
  else if contains al ttl then 5%Z else if contains al snip then 3%Z else 0%Z.

Definition city_points (ttl snip : string) (c : option string) : Z :=
  let cl := lower (or_empty c) in
  if is_empty cl then 0%Z
  else if contains cl ttl then 2%Z else if contains cl snip then 1%Z else 0%Z.

Definition sum_Z (l : list Z) : Z := fold_right Z.add 0%Z l.

End Rank.

(* ------------------------------------------------------------------ *)
(** ** The retrieval cascade: [search_google_news_multi_relaxed] *)

Module Cascade.
Import Py NewsFetcher.

(** [sep.join(l)] *)
Fixpoint join (sep : string) (l : list string) : string :=
  match l with
  | [] => EmptyString
  | [x] => x
  | x :: rest => x ++ sep ++ join sep rest
  end.

Definition quote (s : string) : string := String "034" (s ++ String "034" EmptyString).

(** The order-preserving de-duplication by [q.lower()] that ends
    [expand_actor]. *)
Fixpoint dedupe_lower (seen : list string) (l : list string) : list string :=
  match l with
  | [] => []
  | q :: rest =>
      let k := lower q in
      if negb (is_empty k) && negb (existsb (String.eqb k) seen)
      then q :: dedupe_lower (k :: seen) rest
      else dedupe_lower seen rest
  end.

Section Cascade.
(** [unicodedata]'s accent removal used by [_normalize]. *)
Variable normalize : string -> string.
(** [fetch_news(q, size=n, days_back=d, ...)] with the caller's language and
    country: the HTTP fetch and feed parsing; [None] when it raises. *)
Variable fetch_news : string -> Z -> Z -> option (list fetched_item).
(** The [BACKFILL_SITES] environment variable. *)
Variable sites_env : string.

(** [query_expand.expand_actor(actor, extra_aliases=None)] *)
Definition expand_actor (actor : string) : list string :=
  let base := if is_empty actor then [] else [strip actor] in
  let norm := normalize actor in
  let base := if negb (is_empty norm) && negb (String.eqb (lower norm) (lower actor))
              then (base ++ [norm])%list else base in
  dedupe_lower [] base.

(** [_gn_fetch(queries, days_back, ...)]: a query whose fetch raises
    contributes nothing. *)
Definition _gn_fetch (queries : list string) (days_back : Z) : list item :=
  flat_map (fun q =>
    match fetch_news q 35 days_back with
    | Some its => map to_dict its
    | None => []
    end) queries.

Definition default_sites : list string :=
  ["milenio.com"; "eluniversal.com.mx"; "elfinanciero.com.mx"; "proceso.com.mx";
   "excelsior.com.mx"; "aristeguinoticias.com"; "debate.com.mx"; "animalpolitico.com";
   "expreso.press"; "elmercurio.com.mx"; "elmanana.com.mx"].

Definition sites : list string :=
  if negb (is_empty (strip sites_env))
  then filter (fun s => negb (is_empty s)) (map strip (split_all "," sites_env))
  else default_sites.

Definition boosted (aliases city_boost : list string) : list string :=
  match city_boost with
  | [] => map quote aliases
  | _ :: _ =>
      let or_cities := join " OR " (map quote city_boost) in
      map (fun a => quote a ++ " (" ++ or_cities ++ ")") aliases
  end.

(** [_site_backfill]: at most 5 aliases times 6 sites, [size=10] each. *)
Definition _site_backfill (aliases city_boost : list string) (days_back : Z) : list item :=
  flat_map (fun alias =>
    flat_map (fun site =>
      match fetch_news (alias ++ " site:" ++ site) 10 days_back with
      | Some its => map to_dict its
      | None => []
      end) (firstn 6 sites)) (firstn 5 (boosted aliases city_boost)).

(** The soft ranking and truncation at the end of the cascade:
    [scored.sort(key=lambda x: x[0], reverse=True)], then [ranked[:size]]. *)
Definition rank_items (aliases city_boost : list string) (size : Z) (items : list item)
    : list item :=
  let scored := map (fun it => (Rank.score_item it aliases (Some (map Some city_boost)), it)) items in
  let ranked := map snd (sort_desc fst scored) in
  py_take size ranked.

(** The passes of the cascade, with the lookback window they use. *)
Inductive pass :=
| GNCityBoost (days : Z)
| GNNational (days : Z)
| SiteBackfill (days : Z).

Definition count_lt (items : list item) (size : Z) : bool :=
  (Z.of_nat (List.length items) <? size)%Z.

(** [search_google_news_multi_relaxed(q, size, days_back, city_keywords)]:
    the passes run, in order, and the items returned. *)
Definition search_relaxed (q : string) (size days_back : Z)
    (city_keywords : option (list string)) : list pass * list item :=
  let aliases := expand_actor q in
  let city_boost := filter (fun c => negb (is_empty c) && negb (is_empty (strip c)))
                           (match city_keywords with Some l => l | None => [] end) in
  let queries_p1 := boosted aliases city_boost in
  let items1 := _gn_fetch queries_p1 days_back in
  let '(log2, items2) :=
      if count_lt items1 size
      then ([GNNational days_back], (items1 ++ _gn_fetch (map quote aliases) days_back)%list)
      else ([], items1) in
  let '(log3, items3) :=
      if count_lt items2 size
      then ([SiteBackfill days_back], (items2 ++ _site_backfill aliases city_boost days_back)%list)
      else ([], items2) in
  (GNCityBoost days_back :: (log2 ++ log3)%list,
   rank_items aliases city_boost size (_dedupe items3)).

End Cascade.
End Cascade.

(* ------------------------------------------------------------------ *)
(** ** [query_builder.build_query_variants] *)

Module QueryBuilder.
Import Py.

Definition ROLE_KEYWORDS : list string :=
  ["alcalde"; "alcaldesa"; "presidente municipal"; "edil"; "munícipe";
   "diputado"; "diputada"; "senador"; "senadora"; "candidato"; "candidata"].

Definition PARTY_KEYWORDS : list string :=
  ["morena"; "pan"; "pri"; "prd"; "mc"; "verde"; "pt"].

(** [_norm_list(values)]: stripped, non-empty entries. *)
Definition _norm_list (values : option (list string)) : list string :=
  match values with
  | None => []
  | Some vs => filter (fun s => negb (is_empty s))
                      (map strip (filter (fun v => negb (is_empty v)) vs))
  end.

Definition quote (s : string) : string := String "034" (s ++ String "034" EmptyString).

(** The local [add(s)] on the state [(seen, ordered)]. *)
Definition add (st : list string * list string) (s : string) : list string * list string :=
  let '(seen, ordered) := st in
  let s2 := strip s in
  if is_empty s2 then st
  else if existsb (String.eqb s2) seen then st
  else (s2 :: seen, app ordered [s2]).

(** The arguments of the [add] calls, in the order the loops make them. *)
Definition step1 (a : string) (cities : list string) : list string :=
  flat_map (fun c => flat_map (fun r =>
    [a ++ " " ++ r ++ " " ++ c; quote a ++ " " ++ r ++ " " ++ c]) ROLE_KEYWORDS) cities.

Definition step2 (a : string) (cities : list string) : list string :=
  flat_map (fun c => flat_map (fun p =>
    [a ++ " " ++ p ++ " " ++ c; quote a ++ " " ++ p ++ " " ++ c]) PARTY_KEYWORDS) cities.

Definition step3 (a : string) (cities : list string) : list string :=
  flat_map (fun c => [a ++ " " ++ c; quote a ++ " " ++ c]) cities.

Definition step4 (a : string) : list string :=
  flat_map (fun r => [a ++ " " ++ r; quote a ++ " " ++ r]) ROLE_KEYWORDS.

Definition step5 (a : string) : list string :=
  flat_map (fun p => [a ++ " " ++ p; quote a ++ " " ++ p]) PARTY_KEYWORDS.

Definition step6 (a : string) (cities extra_words : list string) : list string :=
  flat_map (fun x =>
    app [a ++ " " ++ x; quote a ++ " " ++ x]
        (flat_map (fun c => [a ++ " " ++ x ++ " " ++ c; quote a ++ " " ++ x ++ " " ++ c]) cities))
    extra_words.

Definition step7 (a : string) : list string := [a; quote a].

Definition all_adds (a : string) (cities extra_words : list string) : list string :=
  step1 a cities ++ (step2 a cities ++ (step3 a cities ++ (step4 a ++ (step5 a
   ++ (step6 a cities extra_words ++ step7 a)%list)%list)%list)%list)%list.

(** [build_query_variants(actor, city_keywords, extras)] *)
Definition build_query_variants (actor : string) (city_keywords extras : option (list string))
    : list string :=
  let a := strip actor in
  if is_empty a then []
  else
    let cities := _norm_list city_keywords in
    let extra_words := _norm_list extras in
    snd (fold_left add (all_adds a cities extra_words) ([], [])).

End QueryBuilder.

(* ------------------------------------------------------------------ *)
(** ** The auto-ingestion tick: [scheduler.campaign_tick] *)

Module Scheduler.

Inductive plan_tier := BASIC | PRO | UNLIMITED.

(** The campaign columns the tick reads and writes; [autoLastReset] is
    the calendar date (in America/Monterrey) of the stored reset instant. *)
Record campaign := mk_campaign {
  c_id : string;
  plan : plan_tier;
  autoEnabled : bool;
  autoRunsToday : Z;
  autoLastReset : option Z;
  lastAutoRunAt : option Z
}.

Definition set_counters (c : campaign) (runs : Z) (reset : option Z) (last : option Z)
    : campaign :=
  mk_campaign (c_id c) (plan c) (autoEnabled c) runs reset last.

(** [_reset_quota_if_needed(session, c, today)]: the reset instant is the
    tick's own, so its date is [today]. *)
Definition _reset_quota_if_needed (c : campaign) (today : Z) : campaign :=
  match autoLastReset c with
  | Some d => if (d =? today)%Z then c
              else set_counters c 0 (Some today) (lastAutoRunAt c)
  | None => set_counters c 0 (Some today) (lastAutoRunAt c)
  end.

(** [_quota_for_plan(plan)]; [None] is unlimited. *)
Definition _quota_for_plan (p : plan_tier) : option Z :=
  match p with
  | BASIC => Some 1%Z
  | PRO => Some 3%Z
  | UNLIMITED => None
  end.

(** [_should_run_now(c, now)]: at least 4 hours since the last run. *)
Definition _should_run_now (c : campaign) (now : Z) : bool :=
  match lastAutoRunAt c with
  | Some t => negb (now - t <? 4 * 3600)%Z
  | None => true
  end.

(** The body of the loop of [campaign_tick] up to the kickoff: the
    campaign after the reset, and whether the pipeline is started. *)
Definition tick_decide (today now : Z) (c : campaign) : campaign * bool :=
  let c1 := _reset_quota_if_needed c today in
  match _quota_for_plan (plan c1) with
  | Some q => if (q <=? autoRunsToday c1)%Z then (c1, false)
              else (c1, _should_run_now c1 now)
  | None => (c1, _should_run_now c1 now)
  end.

(** The counter update after [kickoff_campaign_ingest(c.id)] returned. *)
Definition after_run (now : Z) (c : campaign) : campaign :=
  set_counters c (autoRunsToday c + 1) (autoLastReset c) (Some now).

(** The loop over the enabled campaigns. [kick_ok id] says whether
    [kickoff_campaign_ingest(id)] returns (it commits its own session) or
    raises; a raise leaves the loop. Result: the updated campaigns, the ids
    whose pipeline ran, and whether the loop was left by an exception. *)
Fixpoint tick_loop (kick_ok : string -> bool) (today now : Z) (cs : list campaign)
    : list campaign * list string * bool :=
  match cs with
  | [] => ([], [], false)
  | c :: rest =>
      let '(c1, go) := tick_decide today now c in
      if go then
        if kick_ok (c_id c) then
          let '(cs', ran, aborted) := tick_loop kick_ok today now rest in
          (after_run now c1 :: cs', c_id c :: ran, aborted)
        else ([], [], true)
      else
        let '(cs', ran, aborted) := tick_loop kick_ok today now rest in
        (c1 :: cs', ran, aborted)
  end.

(** [campaign_tick()] on the table of campaigns: the tick's session is
    committed only when the loop ends normally; otherwise its changes are
    discarded and the table is as before. Campaigns with [autoEnabled]
    false are not selected and not changed. *)
Definition campaign_tick (kick_ok : string -> bool) (today now : Z) (table : list campaign)
    : list campaign * list string :=
  let enabled := filter autoEnabled table in
  let '(cs', ran, aborted) := tick_loop kick_ok today now enabled in
  if aborted then (table, ran)
  else ((cs' ++ filter (fun c => negb (autoEnabled c)) table)%list, ran).

(** A sequence of ticks, each given by [(today, now, kick_ok)]. *)
Fixpoint run_ticks (ticks : list (Z * Z * (string -> bool))) (table : list campaign)
    : list campaign * list string :=
  match ticks with
  | [] => (table, [])
  | (today, now, ok) :: rest =>
      let '(t1, ran1) := campaign_tick ok today now table in
      let '(t2, ran2) := run_ticks rest t1 in
      (t2, (ran1 ++ ran2)%list)
  end.

(** One campaign over the ticks [nows] of one calendar day [today], when
    its kickoffs return and no other campaign's kickoff raises: the number
    of pipeline runs. *)
Fixpoint runs_same_day (today : Z) (nows : list Z) (c : campaign) : nat :=
  match nows with
  | [] => 0
  | now :: rest =>
      let '(c1, go) := tick_decide today now c in
      if go then S (runs_same_day today rest (after_run now c1))
      else runs_same_day today rest c1
  end.

(** How many times [id] occurs in a list of ran ids. *)
Definition runs_of (id : string) (ran : list string) : nat :=
  List.length (filter (String.eqb id) ran).

End Scheduler.

(* ------------------------------------------------------------------ *)
(** ** The persistence step of [ingest_auto.kickoff_campaign_ingest] *)

Module IngestAuto.
Import Py.

(** A candidate dict [{title, url, publishedAt}] from the GN and Bing
    fetchers. *)
Record cand := mk_cand {
  c_title : option string;
  c_url : option string;
  c_publishedAt : option Z
}.

(** A row of [ingested_items]; [status = None] is pending. *)
Record row := mk_row {
  r_campaignId : string;
  r_title : string;
  r_url : string;
  r_publishedAt : option Z;
  r_status : option string
}.

(** [ingest_auto._dedupe]: keyed by [(url or '').strip()]. *)
Fixpoint dedupe_from (seen : list string) (items : list cand) : list cand :=
  match items with
  | [] => []
  | it :: rest =>
      let u := strip (or_empty (c_url it)) in
      if negb (is_empty u) && negb (existsb (String.eqb u) seen)
      then it :: dedupe_from (u :: seen) rest
      else dedupe_from seen rest
  end.

Definition _dedupe (items : list cand) : list cand := dedupe_from [] items.

(** The normalisation loop: stripped title and url, empty ones dropped,
    title cut to 512 characters. *)
Definition normalize (all_items : list cand) : list cand :=
  flat_map (fun it =>
    let t := strip (or_empty (c_title it)) in
    let u := strip (or_empty (c_url it)) in
    if is_empty u || is_empty t then []
    else [mk_cand (Some (substring 0 512 t)) (Some u) (c_publishedAt it)]) all_items.

(** The insertion loop: one [INSERT INTO ingested_items] per item. *)
Definition insert_all (campaign_id : string) (items : list cand) (db : list row) : list row :=
  (db ++ map (fun it => mk_row campaign_id (or_empty (c_title it)) (or_empty (c_url it))
                               (c_publishedAt it) None) items)%list.

(** The persistence step of [kickoff_campaign_ingest] (lines from the
    normalisation to the commit), for the fetched candidates [all_items]
    of a campaign with id [campaign_id] and [size]. *)
Definition persist (campaign_id : string) (size : Z) (all_items : list cand) (db : list row)
    : list row :=
  insert_all campaign_id (NewsFetcher.py_take size (_dedupe (normalize all_items))) db.

(** The number of rows of a campaign with a given url. *)
Definition rows_with (db : list row) (cid u : string) : nat :=
  List.length (filter (fun r => String.eqb (r_campaignId r) cid && String.eqb (r_url r) u) db).

(** The checked insertion loop of the sibling path in [routers/news.py]:
    [SELECT 1 FROM ingested_items WHERE "campaignId" = :cid AND url = :url]
    before each [INSERT]. *)
Definition insert_checked (campaign_id : string) (items : list cand) (db : list row) : list row :=
  fold_left (fun db it =>
    if existsb (fun r => String.eqb (r_campaignId r) campaign_id
                         && String.eqb (r_url r) (or_empty (c_url it))) db
    then db
    else (db ++ [mk_row campaign_id (or_empty (c_title it)) (or_empty (c_url it))
                        (c_publishedAt it) None])%list) items db.

End IngestAuto.

(* ------------------------------------------------------------------ *)
(** ** [urllib.parse.urlencode], [quote_plus] and [unquote_plus] *)

Module UrlEncode.
Import Py.
Local Open Scope nat_scope.

(** The bytes [quote] never escapes ([_ALWAYS_SAFE]): ASCII letters,
    digits and [_.-~]. *)
Definition always_safe (c : ascii) : bool :=
  let n := nat_of_ascii c in
  ((97 <=? n) && (n <=? 122)) || ((65 <=? n) && (n <=? 90)) ||
  ((48 <=? n) && (n <=? 57)) || (n =? 95) || (n =? 46) || (n =? 45) || (n =? 126).

(** An upper-case hexadecimal digit, as ['%{:02X}'] writes it. *)
Definition hex_digit (n : nat) : ascii :=
  if n <? 10 then ascii_of_nat (48 + n) else ascii_of_nat (55 + n).

(** [quote_plus(s)] with [safe='']: a space becomes ['+'], a safe byte is
    kept and every other byte of the UTF-8 encoding becomes [%XX]. *)
Fixpoint quote_plus (s : string) : string :=
  match s with
  | EmptyString => EmptyString
  | String c s' =>
      if always_safe c then String c (quote_plus s')
      else if Ascii.eqb c " " then String "+" (quote_plus s')
      else String "%" (String (hex_digit (nat_of_ascii c / 16))
                        (String (hex_digit (nat_of_ascii c mod 16)) (quote_plus s')))
  end.

(** [urlencode(params)] for a dict of strings, in insertion order:
    ['&'.join(quote_plus(k) + '=' + quote_plus(v))]. *)
Definition urlencode (params : list (string * string)) : string :=
  Cascade.join "&" (map (fun kv => quote_plus (fst kv) ++ "=" ++ quote_plus (snd kv)) params).

(** The value of a hexadecimal digit of either case ([_hextobyte]). *)
Definition hex_val (c : ascii) : option nat :=
  let n := nat_of_ascii c in
  if (48 <=? n) && (n <=? 57) then Some (n - 48)
  else if (65 <=? n) && (n <=? 70) then Some (n - 55)
  else if (97 <=? n) && (n <=? 102) then Some (n - 87)
  else None.

(** [unquote_to_bytes]: each [%XX] with two hexadecimal digits becomes
    the byte [XX]; any other ['%'] is kept. *)
Fixpoint unquote_bytes (l : list ascii) : list ascii :=
  match l with
  | [] => []
  | c :: r =>
      if Ascii.eqb c "%" then
        match r with
        | a :: b :: r' =>
            match hex_val a, hex_val b with
            | Some x, Some y => ascii_of_nat (16 * x + y) :: unquote_bytes r'
            | _, _ => c :: unquote_bytes r
            end
        | _ => c :: unquote_bytes r
        end
      else c :: unquote_bytes r
  end.

(** [unquote(s.replace('+', ' '))], the decoding [parse_qs] applies to
    each name and value. The decoded bytes are read back as the string they
    encode (strings are sequences of UTF-8 bytes here); the replacement of
    an invalid UTF-8 sequence by U+FFFD is not modelled. *)
Definition unquote_plus_pct (s : string) : string :=
  string_of_list_ascii (unquote_bytes (list_ascii_of_string (UrlLib.unquote_plus s))).

End UrlEncode.

(* ------------------------------------------------------------------ *)
(** ** [news_fetcher.build_google_news_rss] and the loop of [fetch_news] *)

Module NewsRss.
Import Py.

(** The search operators whose presence keeps the query unquoted. *)
Definition has_operator (q : string) : bool :=
  existsb (fun op => contains op q) [String "034" EmptyString; " OR "; "site:"; "("; ")"].

(** [build_google_news_rss(query, lang, country)] *)
Definition build_google_news_rss (query lang country : string) : string :=
  let q := strip query in
  let q := if has_operator q then q else Cascade.quote q in
  "https://news.google.com/rss/search?" ++
  UrlEncode.urlencode [("q", q); ("hl", lang); ("gl", country); ("ceid", country ++ ":" ++ lang)].

End NewsRss.

(** The loops that scan a feed, keep some entries and leave the loop
    ([break]) as soon as [len(items) >= size] after an append. *)
Module Collect.

Fixpoint collect_upto {A B} (keep : A -> option B) (size : Z) (l : list A) (count : Z)
    : list B :=
  match l with
  | [] => []
  | x :: rest =>
      match keep x with
      | None => collect_upto keep size rest count
      | Some y => if (size <=? count + 1)%Z then [y]
                  else y :: collect_upto keep size rest (count + 1)
      end
  end.

(** The entries a loop keeps, without the [break]. *)
Definition kept {A B} (keep : A -> option B) (l : list A) : list B :=
  flat_map (fun x => match keep x with Some y => [y] | None => [] end) l.

End Collect.

Module FetchNews.
Import Py NewsFetcher.

(** A feed entry as [feedparser] gives it: [getattr(e, "title", "")],
    [getattr(e, "link", "")], the summary, [e.source.title] ([None] when
    absent) and [_to_dt(e.published_parsed)] ([None] when absent or not
    convertible). *)
Record entry := mk_entry {
  e_title : string;
  e_link : string;
  e_summary : option string;
  e_source : option string;
  e_published : option Z
}.

Section FetchNews.
Variable urlparse : string -> option (string * string).
Variable unquote : string -> string.

(** One turn of the loop of [fetch_news]: an entry older than [cutoff] is
    skipped, title and link are stripped, the link is cleaned, and an
    entry with an empty title or link is skipped. The [city_hit] computed
    from [city_keywords] is lost: [FetchedItem] has no such field, the
    first constructor call raises [TypeError] and the item is built without
    it. *)
Definition entry_item (cutoff : Z) (e : entry) : option fetched_item :=
  if match e_published e with Some dt => (dt <? cutoff)%Z | None => false end then None
  else
    let t := strip (e_title e) in
    let l := clean_link urlparse unquote (strip (e_link e)) in
    if is_empty t || is_empty l then None
    else Some (mk_fetched t l (e_source e) (e_published e) (or_empty (e_summary e))).

(** The loop over [feed.entries], left once [len(items) >= size]. *)
Definition fetch_loop (cutoff size : Z) (entries : list entry) : list fetched_item :=
  Collect.collect_upto (entry_item cutoff) size entries 0.

(** [fetch_news(q, size, days_back)] once the feed is fetched: [feed] is
    [None] when the request raises; the cutoff is [days_back] days before
    [now] (seconds). *)
Definition fetch_news (feed : option (list entry)) (now size days_back : Z)
    : option (list fetched_item) :=
  match feed with
  | None => None
  | Some es => Some (fetch_loop (now - 86400 * days_back) size es)
  end.
End FetchNews.
End FetchNews.

(* ------------------------------------------------------------------ *)
(** ** [scheduler.run_alert] *)

Module Alerts.
Import Py NewsFetcher.

(** [models.ItemStatus]: it has no member [PROCESSED]. *)
Inductive item_status := QUEUED | FETCHED | ANALYZED | ERROR.

Record alert := mk_alert {
  a_id : string;
  a_campaignId : string;
  a_analyze : bool
}.

(** An [AlertQuery]: [q], [size], [daysBack] (language and country are
    passed through to [fetch_news] and not modelled). *)
Record alert_query := mk_aq {
  aq_q : string;
  aq_size : Z;
  aq_daysBack : Z
}.

(** The [IngestedItem] columns [run_alert] writes. *)
Record stored := mk_stored {
  s_campaignId : string;
  s_url : string;
  s_title : string;
  s_excerpt : string;
  s_publishedAt : option Z;
  s_status : item_status;
  s_hash : string
}.

(** The tables [run_alert] writes: ingested items and the
    [AlertNotification] rows [(alertId, itemsCount)] (the aggregate is not
    modelled). No [Analysis] row is ever added: the [if alert.analyze:]
    block runs only after the status lookup below, which raises when
    [alert.analyze] is true. *)
Record store := mk_store {
  items : list stored;
  notifications : list (string * nat)
}.

(** [models.ItemStatus.PROCESSED if alert.analyze else
    models.ItemStatus.QUEUED]: with [analyze] true the attribute lookup
    raises [AttributeError] ([None]). *)
Definition item_status_of (al : alert) : option item_status :=
  if a_analyze al then None else Some QUEUED.

Section RunAlert.
(** [hashlib.sha256(link.encode()).hexdigest()] *)
Variable sha256 : string -> string.
(** [fetch_news(aq.q, size=aq.size, days_back=aq.daysBack, ...)]; [None]
    when it raises (not caught by [run_alert]). *)
Variable fetch_news : alert_query -> option (list fetched_item).

(** The loop over the items of one query: [None] is an exception, which
    leaves [run_alert] before its commit. [scalar_one_or_none] raises
    when two rows share the hash. *)
Fixpoint ingest_items (al : alert) (its : list fetched_item) (st : store) (n : nat)
    : option (store * nat) :=
  match its with
  | [] => Some (st, n)
  | it :: rest =>
      let h := sha256 (f_link it) in
      match filter (fun r => String.eqb (s_hash r) h) (items st) with
      | [] =>
          match item_status_of al with
          | None => None
          | Some status =>
              let r := mk_stored (a_campaignId al) (f_link it) (f_title it) (f_summary it)
                                 (f_published_at it) status h in
              ingest_items al rest (mk_store (items st ++ [r])%list (notifications st)) (S n)
          end
      | [_] => ingest_items al rest st n
      | _ :: _ :: _ => None
      end
  end.

Fixpoint ingest_queries (al : alert) (qs : list alert_query) (st : store) (n : nat)
    : option (store * nat) :=
  match qs with
  | [] => Some (st, n)
  | aq :: rest =>
      match fetch_news aq with
      | None => None
      | Some its =>
          match ingest_items al its st n with
          | None => None
          | Some (st1, n1) => ingest_queries al rest st1 n1
          end
      end
  end.

(** [run_alert(alert)] with the alert's queries [queries]: [None] when it
    raises (the session is not committed and the tables are unchanged). *)
Definition run_alert (al : alert) (queries : list alert_query) (st : store) : option store :=
  match queries with
  | [] => Some st
  | _ :: _ =>
      match ingest_queries al queries st 0 with
      | None => None
      | Some (st1, n) => Some (mk_store (items st1) (notifications st1 ++ [(a_id al, n)])%list)
      end
  end.
End RunAlert.
End Alerts.

(* ------------------------------------------------------------------ *)
(** ** The feed fetchers of [ingest_auto] *)

Module IngestFetch.
Import Py IngestAuto.

(** A [datetime]: naive or timezone-aware, with its POSIX seconds.
    [kickoff_campaign_ingest] passes [since = datetime.utcnow() -
    timedelta(days=days_back)], a naive one. *)
Inductive datetime := Naive (t : Z) | Aware (t : Z).

(** [a < b] on datetimes: comparing a naive with an aware one raises
    [TypeError] ([None]). *)
Definition dt_lt (a b : datetime) : option bool :=
  match a, b with
  | Naive x, Naive y => Some (x <? y)%Z
  | Aware x, Aware y => Some (x <? y)%Z
  | _, _ => None
  end.

(** A feed entry: [getattr(e, "title", "") or ""], the link likewise,
    and [fromtimestamp(mktime(e.published_parsed), tz=timezone.utc)]
    (an aware datetime) as POSIX seconds, [None] when absent or when the
    conversion raises. *)
Record rss_entry := mk_rss {
  x_title : option string;
  x_link : option string;
  x_dt : option Z
}.

(** One turn of the loops of [_google_news_fetch] and [_bing_news_fetch]:
    [None] is an exception, [Some None] a [continue]. In [if since and dt
    and dt < since] both [since] and [dt] are datetimes, always true. *)
Definition rss_item (since : datetime) (e : rss_entry) : option (option cand) :=
  let t := or_empty (x_title e) in
  let l := or_empty (x_link e) in
  if is_empty t || is_empty l then Some None
  else match x_dt e with
       | Some d =>
           match dt_lt (Aware d) since with
           | None => None
           | Some true => Some None
           | Some false => Some (Some (mk_cand (Some t) (Some l) (Some d)))
           end
       | None => Some (Some (mk_cand (Some t) (Some l) None))
       end.

(** The loop, left once [len(out) >= limit]. *)
Fixpoint rss_loop (since : datetime) (limit : Z) (es : list rss_entry) (out : list cand)
    : option (list cand) :=
  match es with
  | [] => Some out
  | e :: rest =>
      match rss_item since e with
      | None => None
      | Some None => rss_loop since limit rest out
      | Some (Some c) =>
          let out' := (out ++ [c])%list in
          if (limit <=? Z.of_nat (List.length out'))%Z then Some out'
          else rss_loop since limit rest out'
      end
  end.

(** The loop over [entries[: max(50, limit)]]. *)
Definition rss_collect (since : datetime) (limit : Z) (entries : list rss_entry)
    : option (list cand) :=
  rss_loop since limit (firstn (Z.to_nat (Z.max 50 limit)) entries) [].

Section Fetchers.
(** [feedparser.parse(url).entries] (feedparser does not raise). *)
Variable feedparse : string -> list rss_entry.

Definition or_default (s d : string) : string := if Py.is_empty s then d else s.

(** [_google_news_fetch(q, lang, country, since, limit)]; [None] when it
    raises. *)
Definition _google_news_fetch (q lang country : string) (since : datetime) (limit : Z)
    : option (list cand) :=
  let params := [("q", Cascade.quote q); ("hl", or_default lang "es-419");
                 ("gl", or_default country "MX");
                 ("ceid", or_default country "MX" ++ ":" ++ or_default lang "es-419")] in
  rss_collect since limit
    (feedparse ("https://news.google.com/rss/search?" ++ UrlEncode.urlencode params)).

(** [_bing_news_fetch(q, since, limit)]; [None] when it raises. *)
Definition _bing_news_fetch (q : string) (since : datetime) (limit : Z) : option (list cand) :=
  rss_collect since limit
    (feedparse ("https://www.bing.com/news/search" ++ "?" ++
                UrlEncode.urlencode [("q", q); ("format", "rss")])).

(** [_safe_search_google(q, lang, country, since, size)]: [items or []],
    and [[]] when the fetch raises. *)
Definition _safe_search_google (q lang country : string) (since : datetime) (size : Z)
    : list cand :=
  match _google_news_fetch q lang country since size with Some l => l | None => [] end.

(** [_safe_search_bing(q, since, size)] *)
Definition _safe_search_bing (q : string) (since : datetime) (size : Z) : list cand :=
  match _bing_news_fetch q since size with Some l => l | None => [] end.
End Fetchers.
End IngestFetch.

(* ------------------------------------------------------------------ *)
(** ** [services/search_local.py] *)

Module SearchLocal.
Import Py NewsFetcher.

(** [s[n:]] *)
Fixpoint drop (n : nat) (s : string) : string :=
  match n, s with
  | O, _ => s
  | S _, EmptyString => EmptyString
  | S n', String _ s' => drop n' s'
  end.

(** The longest prefix without ['/'] ([[^/]+] is greedy and matches any
    other character, newlines included). *)
Fixpoint take_nonslash (s : string) : string :=
  match s with
  | EmptyString => EmptyString
  | String c s' => if Ascii.eqb c "/" then EmptyString else String c (take_nonslash s')
  end.

(** A match of [https?://([^/]+)] (case-insensitively) at the start of
    [s]: its group. The case folding is that of ASCII letters; the
    Unicode folds of [re.I] outside ASCII (such as U+017F for [s]) are
    not modelled. *)
Definition match_at (s : string) : option string :=
  let ls := lower s in
  if starts_with "https://" ls then
    let d := take_nonslash (drop 8 s) in if is_empty d then None else Some d
  else if starts_with "http://" ls then
    let d := take_nonslash (drop 7 s) in if is_empty d then None else Some d
  else None.

(** [re.search]: the first position with a match. *)
Fixpoint search_domain (s : string) : option string :=
  match match_at s with
  | Some d => Some d
  | None => match s with EmptyString => None | String _ s' => search_domain s' end
  end.

(** [_domain_from_link(link)] *)
Definition _domain_from_link (link : string) : string :=
  match search_domain link with Some d => lower d | None => EmptyString end.

(** [_score_city_hit(title, summary, city)] *)
Definition _score_city_hit (title summary : string) (city : option string) : Z :=
  match city with
  | None => 0%Z
  | Some c =>
      if is_empty c then 0%Z
      else if contains (lower (strip c)) (lower (title ++ " " ++ summary)) then 1%Z else 0%Z
  end.

(** [re.split(r"[,\s]+", s)]: the pieces between maximal runs of commas
    and whitespace; a leading or trailing run gives an empty piece. *)
Definition is_sep (c : ascii) : bool := Ascii.eqb c "," || is_space c.

Fixpoint split_runs (s : string) (cur : string) (in_run : bool) : list string :=
  match s with
  | EmptyString => [rev_str cur EmptyString]
  | String c s' =>
      if is_sep c then
        if in_run then split_runs s' cur true
        else rev_str cur EmptyString :: split_runs s' EmptyString true
      else split_runs s' (String c cur) false
  end.

Definition is_digit (c : ascii) : bool :=
  let n := nat_of_ascii c in ((48 <=? n) && (n <=? 57))%nat.

Definition digit_val (c : ascii) : Z := Z.of_nat (nat_of_ascii c - 48).

(** Decimal digits, with single underscores between digits. *)
Fixpoint digits_val (l : list ascii) (acc : Z) : option Z :=
  match l with
  | [] => Some acc
  | c :: r =>
      if is_digit c then digits_val r (acc * 10 + digit_val c)%Z
      else if Ascii.eqb c "_" then
        match r with
        | d :: r' => if is_digit d then digits_val r' (acc * 10 + digit_val d)%Z else None
        | [] => None
        end
      else None
  end.

(** [int(tok)] on ASCII text: surrounding whitespace, an optional sign, then
    digits; [None] when it raises [ValueError]. *)
Definition py_int (tok : string) : option Z :=
  match list_ascii_of_string (strip tok) with
  | [] => None
  | c :: r =>
      if Ascii.eqb c "-" || Ascii.eqb c "+" then
        match r with
        | d :: _ => if is_digit d
                    then option_map (fun v => if Ascii.eqb c "-" then Z.opp v else v)
                                    (digits_val r 0)
                    else None
        | [] => None
        end
      else if is_digit c then digits_val (c :: r) 0 else None
  end.

(** The indices read from the model's reply: [n - 1] for each token that
    parses as an integer [n] with [1 <= n <= len(items)]. *)
Definition llm_indices (len : nat) (toks : list string) : list nat :=
  flat_map (fun tok =>
    match py_int tok with
    | Some k => if (1 <=? k)%Z && (k <=? Z.of_nat len)%Z then [Z.to_nat (k - 1)] else []
    | None => []
    end) toks.

(** The first loop: the indices not yet seen, in order. *)
Fixpoint dedupe_idx (seen : list nat) (l : list nat) : list nat :=
  match l with
  | [] => []
  | i :: rest =>
      if existsb (Nat.eqb i) seen then dedupe_idx seen rest
      else i :: dedupe_idx (i :: seen) rest
  end.

(** The completion loop: [for i, it in enumerate(items): if i not in seen
    and len(ranked) < top_k: ranked.append(it)]. *)
Fixpoint fill_idx (seen : list nat) (top_k : Z) (is : list nat) (ranked : list nat) : list nat :=
  match is with
  | [] => ranked
  | i :: rest =>
      if negb (existsb (Nat.eqb i) seen) && (Z.of_nat (List.length ranked) <? top_k)%Z
      then fill_idx seen top_k rest (ranked ++ [i])%list
      else fill_idx seen top_k rest ranked
  end.

(** The positions [_rerank_with_openai] returns for a reply [text]. *)
Definition rerank_positions (len : nat) (text : string) (top_k : Z) : list nat :=
  let idxs := llm_indices len (split_runs (strip text) EmptyString false) in
  let ranked := dedupe_idx [] idxs in
  py_take top_k (fill_idx ranked top_k (seq 0 len) ranked).

Definition at_positions {A} (items : list A) (ps : list nat) : list A :=
  flat_map (fun i => match nth_error items i with Some x => [x] | None => [] end) ps.

(** [_rerank_with_openai(items, query, city, top_k)]: [use_openai] is
    [USE_OPENAI]; [reply] is the message content, [None] when the call or
    reading it raises. *)
Definition _rerank_with_openai {A} (use_openai : bool) (reply : option string)
    (items : list A) (top_k : Z) : list A :=
  if negb use_openai || match items with [] => true | _ => false end then py_take top_k items
  else match reply with
       | None => py_take top_k items
       | Some text => at_positions items (rerank_positions (List.length items) text top_k)
       end.

(** A feed entry: [entry.get("link")], [entry.get("title")],
    [entry.get("summary")], and the ISO text of the parsed publish (or
    update) date, [None] when there is none. *)
Record lentry := mk_lentry {
  le_link : option string;
  le_title : option string;
  le_summary : option string;
  le_published : option string
}.

(** The dict [_normalize_entry] builds, with the [_city_hit] key. *)
Record litem := mk_litem {
  l_id : string;
  l_title : string;
  l_url : string;
  l_source : string;
  l_published_at : option string;
  l_summary : string;
  l_city_hit : Z
}.

(** The dict returned, after [it.pop("_city_hit", None)]. *)
Record lresult := mk_lresult {
  o_id : string;
  o_title : string;
  o_url : string;
  o_source : string;
  o_published_at : option string;
  o_summary : string
}.

Definition pop_city_hit (it : litem) : lresult :=
  mk_lresult (l_id it) (l_title it) (l_url it) (l_source it) (l_published_at it) (l_summary it).

(** [re.sub(r"\s+", "+", s)] *)
Fixpoint ws_plus (s : string) (in_run : bool) : string :=
  match s with
  | EmptyString => EmptyString
  | String c s' =>
      if is_space c then (if in_run then ws_plus s' true else String "+" (ws_plus s' true))
      else String c (ws_plus s' false)
  end.

Definition opt_or (o : option string) (d : string) : string :=
  match o with Some s => if is_empty s then d else s | None => d end.

(** [_google_news_rss(query, country, lang)] *)
Definition _google_news_rss (query : string) (country lang : option string) : string :=
  let q := ws_plus (strip query) false in
  let hl := opt_or lang "es-419" in
  let gl := opt_or country "MX" in
  "https://news.google.com/rss/search?q=" ++ q ++ "&hl=" ++ hl ++ "&gl=" ++ gl ++
  "&ceid=" ++ gl ++ ":" ++ hl.

(** [_bing_news_rss(query)] *)
Definition _bing_news_rss (query : string) : string :=
  "https://www.bing.com/news/search?q=" ++ ws_plus (strip query) false ++ "&format=rss".

(** [_rss_sources(query, city, country, lang)] *)
Definition _rss_sources (query : string) (city country lang : option string) : list string :=
  let q_full := match city with
                | Some c => if is_empty c then query else query ++ " " ++ c
                | None => query
                end in
  [_google_news_rss q_full country lang; _bing_news_rss q_full].

Section SearchLocal.
(** [_hash_id(link)]: the SHA-1 hex digest. *)
Variable sha1 : string -> string.
(** [_within_days(published_iso, days_back)] at the current time. *)
Variable within_days : option string -> Z -> bool.
(** [[t for t in re.split(r"\W+", (query or "").lower()) if len(t) >= 3]]
    (Unicode word characters). *)
Variable q_tokens : string -> list string.
(** [_fetch_rss(url)]: the entries of the feed; [None] when it raises
    ([gather] with [return_exceptions=True] drops it). *)
Variable fetch_rss : string -> option (list lentry).
(** [USE_OPENAI], and the content of the model's reply for the sorted
    candidates ([None] when the call raises). *)
Variable use_openai : bool.
Variable chat : list litem -> option string.

(** [_normalize_entry(entry)] *)
Definition _normalize_entry (e : lentry) : option litem :=
  let link := strip (or_empty (le_link e)) in
  let title := strip (or_empty (le_title e)) in
  if is_empty link || is_empty title then None
  else Some (mk_litem (sha1 link) title link (_domain_from_link link) (le_published e)
                      (strip (or_empty (le_summary e))) 0).

Definition set_city_hit (it : litem) (h : Z) : litem :=
  mk_litem (l_id it) (l_title it) (l_url it) (l_source it) (l_published_at it) (l_summary it) h.

(** The inner loop over one feed's entries, with [seen_ids] and
    [collected]; it is left once [len(collected) >= cap]. *)
Fixpoint collect_entries (city : option string) (days_back cap : Z) (es : list lentry)
    (seen : list string) (acc : list litem) : list string * list litem :=
  match es with
  | [] => (seen, acc)
  | e :: rest =>
      match _normalize_entry e with
      | None => collect_entries city days_back cap rest seen acc
      | Some it0 =>
          if negb (within_days (l_published_at it0) days_back)
          then collect_entries city days_back cap rest seen acc
          else
            let it := set_city_hit it0 (_score_city_hit (l_title it0) (l_summary it0) city) in
            if existsb (String.eqb (l_id it)) seen
            then collect_entries city days_back cap rest seen acc
            else
              let acc' := (acc ++ [it])%list in
              if (cap <=? Z.of_nat (List.length acc'))%Z then (l_id it :: seen, acc')
              else collect_entries city days_back cap rest (l_id it :: seen) acc'
      end
  end.

(** The outer loop over the fetched feeds. *)
Fixpoint collect_feeds (city : option string) (days_back cap : Z) (feeds : list (list lentry))
    (seen : list string) (acc : list litem) : list litem :=
  match feeds with
  | [] => acc
  | f :: rest =>
      let '(seen', acc') := collect_entries city days_back cap f seen acc in
      if (cap <=? Z.of_nat (List.length acc'))%Z then acc'
      else collect_feeds city days_back cap rest seen' acc'
  end.

(** The local [_score_item(it, query)], times ten: [2.0 * actor_score +
    1.0 * city_hit + recency] takes the values 0, 0.1, 1, 1.1, 2, 2.1, 3
    and 3.1, ordered as their tenfold integers. *)
Definition _score_item (it : litem) (query : string) : Z :=
  let blob := (lower (l_title it) ++ String "010" EmptyString ++ lower (l_summary it))%string in
  let hits := List.length (filter (fun t => negb (is_empty t) && contains t blob) (q_tokens query)) in
  let actor := if (0 <? hits)%nat then 1%Z else 0%Z in
  let city := if (l_city_hit it =? 0)%Z then 0%Z else 1%Z in
  let recency := match l_published_at it with
                 | Some d => if is_empty d then 0%Z else 1%Z
                 | None => 0%Z
                 end in
  (20 * actor + 10 * city + recency)%Z.

(** [search_local_news(query, city, country, lang, days_back, limit)] *)
Definition search_local_news (query : string) (city country lang : option string)
    (days_back limit : Z) : list lresult :=
  let urls := _rss_sources query city country lang in
  let feeds := flat_map (fun u => match fetch_rss u with Some es => [es] | None => [] end) urls in
  let cap := Z.max (limit * 2) limit in
  let collected := collect_feeds city days_back cap feeds [] [] in
  let collected := sort_desc (fun it => _score_item it query) collected in
  let top := _rerank_with_openai use_openai (chat collected) collected (Z.min limit 50) in
  map pop_city_hit (py_take limit top).
End SearchLocal.
End SearchLocal.

(* ================================================================== *)
(** * Properties *)

(* ------------------------------------------------------------------ *)
(** ** URL canonicalisation *)

Section CleanLinkProps.
Import Py NewsFetcher.
Variable urlparse : string -> option (string * string).
Variable unquote : string -> string.

(** C10: [clean_link] is the identity, for any URL parser, when parsing
    raises, when the parsed netloc (the host part of the URL) does not end
    with [news.google.com], or when [parse_qs] of the query has no [url]
    value; it is a total function of the URL. *)
Theorem clean_link_identity_outside_aggregator (u : string) :
  (urlparse u = None \/
   exists netloc query, urlparse u = Some (netloc, query) /\
     (ends_with netloc "news.google.com" = false \/ UrlLib.qs_get unquote query "url" = [])) ->
  clean_link urlparse unquote u = u.
Proof.
  unfold clean_link. intros [Hn | (netloc & query & Hp & Hc)].
  - rewrite Hn. reflexivity.
  - rewrite Hp. destruct Hc as [He | Hq].
    + rewrite He. reflexivity.
    + rewrite Hq. destruct (ends_with netloc "news.google.com"); reflexivity.
Qed.

(** When it is not the identity, [clean_link] returns the first [url] value
    of an aggregator link. *)
Lemma clean_link_cases (u : string) :
  clean_link urlparse unquote u = u \/
  exists netloc query v rest, urlparse u = Some (netloc, query) /\
    ends_with netloc "news.google.com" = true /\
    UrlLib.qs_get unquote query "url" = v :: rest /\
    clean_link urlparse unquote u = v.
Proof.
  unfold clean_link. destruct (urlparse u) as [[netloc query]|] eqn:Hp; [|left; reflexivity].
  destruct (ends_with netloc "news.google.com") eqn:He; [|left; reflexivity].
  destruct (UrlLib.qs_get unquote query "url") as [|v rest] eqn:Hq; [left; reflexivity|].
  right. exists netloc, query, v, rest. auto.
Qed.
End CleanLinkProps.

Lemma clean_link_identity_outside_aggregator_witness :
  NewsFetcher.clean_link_py "https://a.com/b?url=zz" = "https://a.com/b?url=zz".
Proof.
  apply (clean_link_identity_outside_aggregator UrlLib.urlparse UrlLib.unquote_plus).
  right. exists "a.com", "url=zz". split; [vm_compute; reflexivity|].
  left. vm_compute. reflexivity.
Defined.

Example clean_link_unwraps :
  NewsFetcher.clean_link_py "https://news.google.com/rss/articles/x?url=https://x.com/n&oc=5"
  = "https://x.com/n".
Proof. vm_compute. reflexivity. Qed.

(* ------------------------------------------------------------------ *)
(** ** De-duplication of the cascade's candidates *)

Module DedupeProps.
Import Py NewsFetcher Seq.

Definition key (it : item) : string := lower (strip (or_empty (url it))).

Lemma dedupe_from_not_seen seen l it :
  In it (dedupe_from seen l) -> ~ In (key it) seen.
Proof.
  revert seen. induction l as [|x l IH]; intros seen Hin; simpl in Hin; [contradiction|].
  fold (key x) in Hin.
  destruct (negb (is_empty (key x)) && negb (existsb (String.eqb (key x)) seen)) eqn:E.
  - apply andb_true_iff in E as [_ E]. apply negb_true_iff in E.
    destruct Hin as [<- | Hin].
    + intro Hs. assert (existsb (String.eqb (key x)) seen = true) as Ht.
      { apply existsb_exists. exists (key x). split; [exact Hs | apply String.eqb_refl]. }
      congruence.
    + intro Hs. apply (IH _ Hin). right. exact Hs.
  - exact (IH _ Hin).
Qed.

Lemma dedupe_from_nodup seen l : NoDup (map key (dedupe_from seen l)).
Proof.
  revert seen. induction l as [|x l IH]; intros seen; simpl; [constructor|].
  fold (key x).
  destruct (negb (is_empty (key x)) && negb (existsb (String.eqb (key x)) seen)); simpl.
  - constructor; [|apply IH]. intro Hin. apply in_map_iff in Hin as (y & Hy & Hin).
    apply dedupe_from_not_seen in Hin. apply Hin. rewrite Hy. left. reflexivity.
  - apply IH.
Qed.

Lemma dedupe_from_nonempty seen l it :
  In it (dedupe_from seen l) -> is_empty (key it) = false.
Proof.
  revert seen. induction l as [|x l IH]; intros seen Hin; simpl in Hin; [contradiction|].
  fold (key x) in Hin.
  destruct (negb (is_empty (key x)) && negb (existsb (String.eqb (key x)) seen)) eqn:E.
  - destruct Hin as [<- | Hin]; [|exact (IH _ Hin)].
    apply andb_true_iff in E as [E _]. apply negb_true_iff in E. exact E.
  - exact (IH _ Hin).
Qed.

Lemma dedupe_from_complete seen l k :
  is_empty k = false -> In k (map key l) -> ~ In k seen -> In k (map key (dedupe_from seen l)).
Proof.
  revert seen. induction l as [|x l IH]; intros seen Hk Hin Hs; simpl in *; [contradiction|].
  fold (key x).
  destruct (negb (is_empty (key x)) && negb (existsb (String.eqb (key x)) seen)) eqn:E.
  - simpl. destruct (String.eqb_spec (key x) k) as [Heq | Hne]; [left; exact Heq|].
    right. apply IH; [exact Hk | destruct Hin; [congruence | assumption] |].
    intros [H | H]; [congruence | exact (Hs H)].
  - destruct Hin as [Heq | Hin]; [|exact (IH _ Hk Hin Hs)].
    exfalso. subst k. rewrite Hk in E. simpl in E.
    apply negb_false_iff in E. apply existsb_exists in E as (y & Hy & Hey).
    apply String.eqb_eq in Hey. subst y. exact (Hs Hy).
Qed.

Lemma dedupe_from_first seen l it :
  In it (dedupe_from seen l) ->
  exists pre suf, l = (pre ++ it :: suf)%list /\ ~ In (key it) (map key pre).
Proof.
  revert seen. induction l as [|x l IH]; intros seen Hin; simpl in Hin; [contradiction|].
  fold (key x) in Hin.
  destruct (negb (is_empty (key x)) && negb (existsb (String.eqb (key x)) seen)) eqn:E.
  - destruct Hin as [<- | Hin].
    + exists [], l. split; [reflexivity | intros []].
    + destruct (IH _ Hin) as (pre & suf & -> & Hpre).
      exists (x :: pre), suf. split; [reflexivity|].
      intros [Hx | Hp]; [|exact (Hpre Hp)].
      apply (dedupe_from_not_seen _ _ _ Hin). rewrite <- Hx. left. reflexivity.
  - destruct (IH _ Hin) as (pre & suf & -> & Hpre).
    exists (x :: pre), suf. split; [reflexivity|].
    intros [Hx | Hp]; [|exact (Hpre Hp)].
    apply (dedupe_from_not_seen _ _ _ Hin).
    pose proof (dedupe_from_nonempty _ _ _ Hin) as Hne. rewrite <- Hx in Hne |- *.
    rewrite Hne in E. simpl in E. apply negb_false_iff in E.
    apply existsb_exists in E as (y & Hy & Hey). apply String.eqb_eq in Hey. subst y. exact Hy.
Qed.

Lemma dedupe_from_subseq seen l : subseq (dedupe_from seen l) l.
Proof.
  revert seen. induction l as [|x l IH]; intros seen; simpl; [constructor|].
  destruct (_ && _); [apply subseq_keep | apply subseq_skip]; apply IH.
Qed.

End DedupeProps.

Section DedupeClaim.
Import Py NewsFetcher Seq DedupeProps.

Definition candidate (u : string) : item :=
  {| title := Some "Nota"; url := Some u; summary := Some ""; snippet := None;
     published_at := None; source := None |}.

(** C3 (counterexample): a redirect-wrapped aggregator link and its
    destination canonicalise to the same URL, and [_dedupe] keeps both;
    [_dedupe] itself does not canonicalise. *)
Lemma dedupe_keeps_redirect_duplicate :
  let wrapped := "https://news.google.com/rss/articles/x?url=https://x.com/n" in
  let dest := "https://x.com/n" in
  clean_link_py wrapped = clean_link_py dest /\
  _dedupe [candidate wrapped; candidate dest] = [candidate wrapped; candidate dest].
Proof. split; vm_compute; reflexivity. Qed.

(** C3 (amended): [_dedupe] keys each candidate by its url stripped and
    lower-cased; its output has pairwise distinct, non-empty keys, has an
    entry for every non-empty key of the input, each entry is the first
    input candidate with its key, and the entries keep their input order. *)
Theorem dedupe_first_seen_per_key (l : list item) :
  let out := _dedupe l in
  NoDup (map key out) /\
  (forall it, In it out -> is_empty (key it) = false) /\
  (forall k, is_empty k = false -> In k (map key l) -> In k (map key out)) /\
  (forall it, In it out ->
     exists pre suf, l = (pre ++ it :: suf)%list /\ ~ In (key it) (map key pre)) /\
  subseq out l.
Proof.
  unfold _dedupe. repeat split.
  - apply dedupe_from_nodup.
  - intros it. apply dedupe_from_nonempty.
  - intros k Hk Hin. apply dedupe_from_complete; [exact Hk | exact Hin | intros []].
  - intros it. apply dedupe_from_first.
  - apply dedupe_from_subseq.
Qed.

Lemma dedupe_first_seen_per_key_witness :
  let l := [candidate "https://x.com/A"; candidate " https://x.com/a"; candidate ""] in
  _dedupe l = [candidate "https://x.com/A"] /\
  (forall k, is_empty k = false -> In k (map key l) -> In k (map key (_dedupe l))).
Proof.
  split; [vm_compute; reflexivity|].
  apply (dedupe_first_seen_per_key [candidate "https://x.com/A"; candidate " https://x.com/a";
                                    candidate ""]).
Defined.
End DedupeClaim.

(* ------------------------------------------------------------------ *)
(** ** The relevance score *)

Module RankProps.
Import Py NewsFetcher Rank.

Lemma alias_step ttl snip a s :
  (if negb (is_empty (lower a)) && contains (lower a) ttl then (s + 5)%Z
   else if negb (is_empty (lower a)) && contains (lower a) snip then (s + 3)%Z
   else s) = (s + alias_points ttl snip a)%Z.
Proof.
  unfold alias_points. destruct (is_empty (lower a)); cbn [negb andb]; [lia|].
  destruct (contains (lower a) ttl); [lia|]. destruct (contains (lower a) snip); lia.
Qed.

Lemma city_step ttl snip c s :
  (if negb (is_empty (lower (or_empty c))) && contains (lower (or_empty c)) ttl then (s + 2)%Z
   else if negb (is_empty (lower (or_empty c))) && contains (lower (or_empty c)) snip
   then (s + 1)%Z else s) = (s + city_points ttl snip c)%Z.
Proof.
  unfold city_points. destruct (is_empty (lower (or_empty c))); cbn [negb andb]; [lia|].
  destruct (contains (lower (or_empty c)) ttl); [lia|].
  destruct (contains (lower (or_empty c)) snip); lia.
Qed.

Lemma alias_loop_sum ttl snip aliases s :
  alias_loop ttl snip aliases s = (s + sum_Z (map (alias_points ttl snip) aliases))%Z.
Proof.
  revert s. induction aliases as [|a r IH]; intros s; [simpl; lia|].
  cbn [alias_loop map]. rewrite IH. cbv zeta. rewrite alias_step. simpl sum_Z. lia.
Qed.

Lemma city_loop_sum ttl snip cities s :
  city_loop ttl snip cities s = (s + sum_Z (map (city_points ttl snip) cities))%Z.
Proof.
  revert s. induction cities as [|c r IH]; intros s; [simpl; lia|].
  cbn [city_loop map]. rewrite IH. cbv zeta. rewrite city_step. simpl sum_Z. lia.
Qed.

Lemma alias_points_nonneg ttl snip a : (0 <= alias_points ttl snip a)%Z.
Proof.
  unfold alias_points. destruct (is_empty _); [lia|].
  destruct (contains _ ttl); [lia|]. destruct (contains _ snip); lia.
Qed.

Lemma city_points_le_2 ttl snip c : (city_points ttl snip c <= 2)%Z.
Proof.
  unfold city_points. destruct (is_empty _); [lia|].
  destruct (contains _ ttl); [lia|]. destruct (contains _ snip); lia.
Qed.

Lemma sum_nonneg_map {A} (f : A -> Z) l :
  (forall x, (0 <= f x)%Z) -> (0 <= sum_Z (map f l))%Z.
Proof. intros H. induction l; simpl; [lia|]. specialize (H a). lia. Qed.

Lemma sum_le_map {A} (f : A -> Z) l c :
  (forall x, (f x <= c)%Z) -> (sum_Z (map f l) <= c * Z.of_nat (List.length l))%Z.
Proof. intros H. induction l; simpl; [lia|]. specialize (H a). lia. Qed.

Lemma sum_ge_member ttl snip aliases a :
  In a aliases -> is_empty (lower a) = false -> contains (lower a) ttl = true ->
  (5 <= sum_Z (map (alias_points ttl snip) aliases))%Z.
Proof.
  induction aliases as [|b r IH]; intros Hin He Hc; [contradiction|].
  simpl. destruct Hin as [<- | Hin].
  - pose proof (sum_nonneg_map (alias_points ttl snip) r (alias_points_nonneg ttl snip)).
    unfold alias_points at 1. rewrite He, Hc. lia.
  - pose proof (alias_points_nonneg ttl snip b). specialize (IH Hin He Hc). lia.
Qed.

Lemma sum_zero_map ttl snip aliases :
  (forall a, In a aliases -> alias_points ttl snip a = 0%Z) ->
  sum_Z (map (alias_points ttl snip) aliases) = 0%Z.
Proof.
  induction aliases as [|b r IH]; intros H; simpl; [reflexivity|].
  rewrite H by (left; reflexivity). rewrite IH by (intros; apply H; right; assumption). lia.
Qed.

End RankProps.

Section RankClaim.
Import Py NewsFetcher Rank RankProps.

Definition titled (t : string) : item :=
  {| title := Some t; url := Some "https://x.com/n"; summary := Some ""; snippet := None;
     published_at := None; source := None |}.

(** C5 (counterexample): with three city keywords, an item whose title has
    only locality hints scores 6, above the 5 of an item whose title names
    the tracked entity; the score is not bounded by 5 + 2. *)
Lemma locality_only_item_outscores_entity_item :
  let cities := Some [Some "Monterrey"; Some "Nuevo Leon"; Some "Leon"] in
  score_item (titled "Jane Doe habla") ["Jane Doe"] cities = 5%Z /\
  score_item (titled "Monterrey, Nuevo Leon") ["Jane Doe"] cities = 6%Z.
Proof. split; vm_compute; reflexivity. Qed.

(** C5 (amended): the score is a function of the item's title and snippet
    fields, the aliases and the city keywords: the sum over the non-empty
    aliases of 5 (case-insensitive substring of the title) else 3 (of the
    snippet), plus the sum over the non-empty city keywords of 2 (title)
    else 1 (snippet). So an alias in the title gives at least 5 above the
    city points, and an item matching no alias scores at most 2 per city
    keyword. *)
Theorem score_item_sum (it : item) (aliases : list string) (cities : list (option string)) :
  let ttl := lower (or_empty (title it)) in
  let snip := lower (or_empty (snippet it)) in
  let sc := score_item it aliases (Some cities) in
  sc = (sum_Z (map (alias_points ttl snip) aliases) + sum_Z (map (city_points ttl snip) cities))%Z /\
  ((exists a, In a aliases /\ is_empty (lower a) = false /\ contains (lower a) ttl = true) ->
     (sum_Z (map (city_points ttl snip) cities) + 5 <= sc)%Z) /\
  ((forall a, In a aliases -> alias_points ttl snip a = 0%Z) ->
     (sc <= 2 * Z.of_nat (List.length cities))%Z).
Proof.
  cbv zeta. unfold score_item. rewrite city_loop_sum, alias_loop_sum.
  split; [lia|]. split.
  - intros (a & Hin & He & Hc).
    pose proof (sum_ge_member _ (lower (or_empty (snippet it))) _ _ Hin He Hc). lia.
  - intros H. rewrite sum_zero_map by exact H.
    pose proof (sum_le_map _ cities 2 (city_points_le_2 (lower (or_empty (title it)))
                                                     (lower (or_empty (snippet it))))).
    lia.
Qed.

Lemma score_item_sum_witness :
  (5 <= score_item (titled "Jane Doe habla") ["Jane Doe"] (Some [Some "Monterrey"]))%Z.
Proof.
  destruct (score_item_sum (titled "Jane Doe habla") ["Jane Doe"] [Some "Monterrey"])
    as (_ & H & _).
  cbv zeta in H.
  assert (Hb : (0 <= sum_Z (map (city_points (lower (or_empty (title (titled "Jane Doe habla"))))
                                  (lower (or_empty (snippet (titled "Jane Doe habla")))))
                            [Some "Monterrey"]))%Z) by (vm_compute; discriminate).
  refine (Z.le_trans _ _ _ _ (H _)); [lia|].
  exists "Jane Doe". split; [left; reflexivity|]. split; vm_compute; reflexivity.
Defined.
End RankClaim.

(* ------------------------------------------------------------------ *)
(** ** The stable descending sort *)

Module SortProps.
Import NewsFetcher.

Section Sort.
Context {A : Type} (k : A -> Z).

Lemma insert_desc_perm x l : Permutation (insert_desc k x l) (x :: l).
Proof.
  induction l as [|y r IH]; simpl; [constructor; constructor|].
  destruct (k y <? k x)%Z; [reflexivity|].
  rewrite IH. apply perm_swap.
Qed.

Lemma sorted_desc_cons x l : sorted_desc k (x :: l) = true -> sorted_desc k l = true.
Proof. destruct l; simpl; [reflexivity|]. intros H; apply andb_true_iff in H; tauto. Qed.

Lemma sorted_desc_head x l z :
  sorted_desc k (x :: l) = true -> In z (x :: l) -> (k z <= k x)%Z.
Proof.
  revert x. induction l as [|y r IH]; intros x Hs Hin.
  - destruct Hin as [<- | []]. lia.
  - simpl in Hs. apply andb_true_iff in Hs as [Hxy Hs]. apply Z.leb_le in Hxy.
    destruct Hin as [<- | Hin]; [lia|]. specialize (IH y Hs Hin). lia.
Qed.

Lemma sorted_desc_cons_iff y l :
  sorted_desc k (y :: l) = true <->
  (forall z, hd_error l = Some z -> (k z <= k y)%Z) /\ sorted_desc k l = true.
Proof.
  destruct l as [|z r]; simpl.
  - split; [intros _; split; [discriminate | reflexivity] | reflexivity].
  - rewrite andb_true_iff, Z.leb_le. split.
    + intros [H1 H2]. split; [intros w Hw; injection Hw as <-; exact H1 | exact H2].
    + intros [H1 H2]. split; [apply H1; reflexivity | exact H2].
Qed.

Lemma insert_desc_hd x l :
  hd_error (insert_desc k x l) = Some x \/ hd_error (insert_desc k x l) = hd_error l.
Proof.
  destruct l as [|y r]; simpl; [left; reflexivity|].
  destruct (k y <? k x)%Z; simpl; [left | right]; reflexivity.
Qed.

Lemma insert_desc_sorted x l :
  sorted_desc k l = true -> sorted_desc k (insert_desc k x l) = true.
Proof.
  induction l as [|y r IH]; intros Hs; simpl; [reflexivity|].
  destruct (k y <? k x)%Z eqn:E.
  - apply Z.ltb_lt in E. apply sorted_desc_cons_iff. split; [|exact Hs].
    intros z Hz. simpl in Hz. injection Hz as <-. lia.
  - apply Z.ltb_ge in E. apply sorted_desc_cons_iff in Hs as [Hh Hr].
    apply sorted_desc_cons_iff. split; [|exact (IH Hr)].
    intros z Hz. destruct (insert_desc_hd x r) as [H | H]; rewrite H in Hz.
    + injection Hz as <-. exact E.
    + exact (Hh z Hz).
Qed.

Definition keyed (c : Z) (y : A) : bool := (k y =? c)%Z.

Lemma filter_keyed_below l c :
  (forall z, In z l -> (k z < c)%Z) -> filter (keyed c) l = [].
Proof.
  induction l as [|z l IH]; intros H; simpl; [reflexivity|].
  unfold keyed at 1. destruct (Z.eqb_spec (k z) c) as [Hz | Hz].
  - specialize (H z (or_introl eq_refl)). lia.
  - apply IH. intros w Hw. apply H. right. exact Hw.
Qed.

Lemma insert_desc_filter x l c :
  sorted_desc k l = true ->
  filter (keyed c) (insert_desc k x l) =
  if keyed c x then (filter (keyed c) l ++ [x])%list else filter (keyed c) l.
Proof.
  induction l as [|y r IH]; intros Hs; [simpl; destruct (keyed c x); reflexivity|].
  cbn [insert_desc]. destruct (k y <? k x)%Z eqn:E.
    + apply Z.ltb_lt in E.
      change (filter (keyed c) (x :: y :: r)) with
        (if keyed c x then x :: filter (keyed c) (y :: r) else filter (keyed c) (y :: r)).
      destruct (keyed c x) eqn:Hx; [|reflexivity].
      unfold keyed in Hx. apply Z.eqb_eq in Hx.
      rewrite filter_keyed_below; [reflexivity|].
      intros z Hz. pose proof (sorted_desc_head _ _ _ Hs Hz). lia.
    + simpl. rewrite IH by exact (sorted_desc_cons _ _ Hs).
      destruct (keyed c y), (keyed c x); reflexivity.
Qed.

Lemma fold_insert_props l acc :
  sorted_desc k acc = true ->
  sorted_desc k (fold_left (fun a x => insert_desc k x a) l acc) = true /\
  Permutation (fold_left (fun a x => insert_desc k x a) l acc) (acc ++ l) /\
  (forall c, filter (keyed c) (fold_left (fun a x => insert_desc k x a) l acc) =
             (filter (keyed c) acc ++ filter (keyed c) l)%list).
Proof.
  revert acc. induction l as [|x l IH]; intros acc Hs; simpl.
  - rewrite app_nil_r. split; [exact Hs|]. split; [reflexivity|].
    intros c. rewrite app_nil_r. reflexivity.
  - destruct (IH (insert_desc k x acc) (insert_desc_sorted x acc Hs)) as (H1 & H2 & H3).
    split; [exact H1|]. split.
    + rewrite H2. rewrite insert_desc_perm. apply Permutation_middle.
    + intros c. rewrite H3, insert_desc_filter by exact Hs.
      destruct (keyed c x); simpl; [rewrite <- app_assoc; reflexivity | reflexivity].
Qed.

(** [sort_desc] is sorted, a permutation, and stable. *)
Lemma sort_desc_spec l :
  sorted_desc k (sort_desc k l) = true /\ Permutation (sort_desc k l) l /\
  (forall c, filter (keyed c) (sort_desc k l) = filter (keyed c) l).
Proof.
  unfold sort_desc. destruct (fold_insert_props l [] eq_refl) as (H1 & H2 & H3).
  split; [exact H1|]. split; [exact H2|]. intros c. rewrite H3. reflexivity.
Qed.
End Sort.

End SortProps.

Section RankOrderClaim.
Import Py NewsFetcher Cascade SortProps.

Lemma sorted_desc_map_snd {A} (f : A -> Z) (L : list (Z * A)) :
  (forall p, In p L -> fst p = f (snd p)) ->
  sorted_desc fst L = true -> sorted_desc f (map snd L) = true.
Proof.
  induction L as [|p L IH]; intros Hf Hs; [reflexivity|].
  destruct L as [|q L']; [reflexivity|].
  change (sorted_desc fst (p :: q :: L')) with
    ((fst q <=? fst p)%Z && sorted_desc fst (q :: L')) in Hs.
  change (sorted_desc f (map snd (p :: q :: L'))) with
    ((f (snd q) <=? f (snd p))%Z && sorted_desc f (map snd (q :: L'))).
  apply andb_true_iff in Hs as [Hpq Hs].
  rewrite <- (Hf p (or_introl eq_refl)), <- (Hf q (or_intror (or_introl eq_refl))).
  rewrite Hpq. apply (IH (fun r Hr => Hf r (or_intror Hr)) Hs).
Qed.

Lemma filter_map_snd {A} (f : A -> Z) (L : list (Z * A)) c :
  (forall p, In p L -> fst p = f (snd p)) ->
  map snd (filter (keyed fst c) L) = filter (fun x => (f x =? c)%Z) (map snd L).
Proof.
  induction L as [|p L IH]; intros Hf; [reflexivity|].
  simpl. unfold keyed at 1. rewrite (Hf p (or_introl eq_refl)).
  destruct (f (snd p) =? c)%Z; simpl; rewrite IH by (intros; apply Hf; right; assumption);
    reflexivity.
Qed.

(** C6 (amended): the ranked output is a prefix of the stable sort of the
    de-duplicated items by descending score: scores never increase along
    it, it is a permutation of its input, and the items of any one score
    keep their input order. Publish timestamps take no part in it. *)
Theorem rank_items_stable_desc (aliases city_boost : list string) (size : Z) (items : list item) :
  let sc := fun it => Rank.score_item it aliases (Some (map Some city_boost)) in
  exists full,
    rank_items aliases city_boost size items = py_take size full /\
    sorted_desc sc full = true /\ Permutation full items /\
    (forall c, filter (fun it => (sc it =? c)%Z) full = filter (fun it => (sc it =? c)%Z) items).
Proof.
  intros sc. set (scored := map (fun it => (sc it, it)) items).
  destruct (sort_desc_spec fst scored) as (Hs & Hp & Hf).
  assert (Hinv : forall p, In p (sort_desc fst scored) -> fst p = sc (snd p)).
  { intros p Hin. apply (Permutation_in _ Hp) in Hin. unfold scored in Hin.
    apply in_map_iff in Hin as (it & <- & _). reflexivity. }
  assert (Hinv' : forall p, In p scored -> fst p = sc (snd p)).
  { intros p Hin. unfold scored in Hin. apply in_map_iff in Hin as (it & <- & _). reflexivity. }
  assert (Hsnd : map snd scored = items).
  { unfold scored. rewrite map_map. apply map_id. }
  exists (map snd (sort_desc fst scored)). split; [reflexivity|]. split.
  - exact (sorted_desc_map_snd sc _ Hinv Hs).
  - split.
    + rewrite <- Hsnd. apply Permutation_map. exact Hp.
    + intros c. rewrite <- (filter_map_snd sc _ c Hinv), Hf, (filter_map_snd sc _ c Hinv'), Hsnd.
      reflexivity.
Qed.

Definition dated (t : string) (p : option Z) : item :=
  {| title := Some t; url := Some ("https://x.com/" ++ t); summary := Some ""; snippet := None;
     published_at := p; source := None |}.

(** C6 (counterexample): two equally scored items keep their input order:
    an undated item stays before a dated one, and an older one before a
    more recent one. *)
Lemma rank_ignores_recency :
  rank_items ["Jane Doe"] [] 25 [dated "a" None; dated "b" (Some 100%Z)] =
    [dated "a" None; dated "b" (Some 100%Z)] /\
  rank_items ["Jane Doe"] [] 25 [dated "a" (Some 50%Z); dated "b" (Some 100%Z)] =
    [dated "a" (Some 50%Z); dated "b" (Some 100%Z)].
Proof. split; vm_compute; reflexivity. Qed.
End RankOrderClaim.

(* ------------------------------------------------------------------ *)
(** ** The passes of the cascade *)

Section CascadeProps.
Import Py NewsFetcher Cascade.
Variable normalize : string -> string.
Variable fetch_news : string -> Z -> Z -> option (list fetched_item).
Variable sites_env : string.

Definition passes_of q size days_back cks : list pass :=
  fst (search_relaxed normalize fetch_news sites_env q size days_back cks).

(** The candidates after the first pass. *)
Definition pass1_items q days_back (cks : option (list string)) : list item :=
  let city_boost := filter (fun c => negb (is_empty c) && negb (is_empty (strip c)))
                           (match cks with Some l => l | None => [] end) in
  _gn_fetch fetch_news (boosted (expand_actor normalize q) city_boost) days_back.

(** The national pass runs exactly when the raw (not de-duplicated) count
    of the first pass is below [size]. *)
Lemma national_pass_iff_raw_count q size days_back cks :
  In (GNNational days_back) (passes_of q size days_back cks) <->
  count_lt (pass1_items q days_back cks) size = true.
Proof.
  unfold passes_of, pass1_items, search_relaxed. cbv zeta.
  destruct (count_lt _ size) eqn:E1.
  - split; [intros _; reflexivity|]. intros _. cbn beta iota.
    match goal with |- context [if count_lt ?x size then _ else _] =>
      destruct (count_lt x size) end; simpl; right; left; reflexivity.
  - rewrite E1. simpl. split; [|discriminate].
    intros [H | []]. discriminate.
Qed.

(** C4 (amended): the cascade runs the city-boosted pass, then the
    national pass only if still short of [size] (fewer than [size] raw
    candidates so far), then the site backfill only if still short after
    it; each pass runs at most once and every pass uses the caller's
    [days_back]: no pass widens the window. *)
Theorem cascade_passes_same_window q size days_back cks :
  let items1 := pass1_items q days_back cks in
  let items2 := if count_lt items1 size
                then (items1 ++ _gn_fetch fetch_news (map quote (expand_actor normalize q)) days_back)%list
                else items1 in
  let ps := passes_of q size days_back cks in
  ps = GNCityBoost days_back ::
         ((if count_lt items1 size then [GNNational days_back] else []) ++
          (if count_lt items2 size then [SiteBackfill days_back] else []))%list /\
  (ps = [GNCityBoost days_back] \/
   ps = [GNCityBoost days_back; GNNational days_back] \/
   ps = [GNCityBoost days_back; GNNational days_back; SiteBackfill days_back]).
Proof.
  unfold passes_of, search_relaxed, pass1_items. cbv zeta.
  destruct (count_lt _ size) eqn:E1; cbn beta iota.
  - match goal with |- context [if count_lt ?x size then _ else _] =>
      destruct (count_lt x size) end; cbn; split; try reflexivity; [right; right | right; left]; reflexivity.
  - rewrite E1. cbn. split; [reflexivity|]. left. reflexivity.
Qed.
End CascadeProps.

Section CascadeClaims.
Import Py NewsFetcher Cascade.

(** Accent removal on the one accented name used below. *)
Definition normalize_jose (s : string) : string :=
  if String.eqb s "José" then "Jose" else s.

Definition article : fetched_item :=
  mk_fetched "José en Madero" "https://x.com/nota" None None "".

(** A feed that answers every query with the same article. *)
Definition same_article_feed (q : string) (n d : Z) : option (list fetched_item) :=
  Some [article].

(** C2 (failing input): the aliases of "José" are "José" and "Jose"; both
    queries return the same article, so the first pass has 2 raw but 1
    unique candidate. With [size = 2] the national and backfill passes are
    skipped although the unique count is short of the target, and the
    cascade returns one item. *)
Theorem cascade_skips_tiers_on_raw_count :
  passes_of normalize_jose same_article_feed "" "José" 2 14 None = [GNCityBoost 14] /\
  List.length (pass1_items normalize_jose same_article_feed "José" 14 None) = 2 /\
  List.length (_dedupe (pass1_items normalize_jose same_article_feed "José" 14 None)) = 1 /\
  List.length (snd (search_relaxed normalize_jose same_article_feed "" "José" 2 14 None)) = 1.
Proof. vm_compute. repeat split. Qed.

(** A feed with no results. *)
Definition empty_feed (q : string) (n d : Z) : option (list fetched_item) := Some [].

(** C4 (counterexample): with every feed empty the cascade stays under
    target, runs its three passes with the 14-day window and never re-runs
    the first two passes with a 28-day window. *)
Lemma cascade_no_window_relaxation :
  let r := search_relaxed normalize_jose empty_feed "" "José" 10 14 None in
  snd r = [] /\
  fst r = [GNCityBoost 14; GNNational 14; SiteBackfill 14] /\
  ~ In (GNCityBoost 28) (fst r) /\ ~ In (GNNational 28) (fst r).
Proof.
  cbv zeta.
  assert (Hp : fst (search_relaxed normalize_jose empty_feed "" "José" 10 14 None)
               = [GNCityBoost 14; GNNational 14; SiteBackfill 14]) by (vm_compute; reflexivity).
  rewrite Hp. split; [vm_compute; reflexivity|]. split; [reflexivity|].
  simpl. split; intros H; intuition discriminate.
Qed.
End CascadeClaims.

(* ------------------------------------------------------------------ *)
(** ** The query variants *)

Module QueryBuilderProps.
Import Py Seq QueryBuilder.

(** The state of [add]: [seen] and [ordered] hold the same strings. *)
Definition inv (st : list string * list string) : Prop :=
  (forall x, In x (fst st) <-> In x (snd st)) /\ NoDup (snd st).

Lemma existsb_eqb_iff x l : existsb (String.eqb x) l = true <-> In x l.
Proof.
  rewrite existsb_exists. split.
  - intros (y & Hy & Hxy). apply String.eqb_eq in Hxy. subst. exact Hy.
  - intros H. exists x. split; [exact H | apply String.eqb_refl].
Qed.

Lemma add_inv st s : inv st -> inv (add st s).
Proof.
  destruct st as [seen ord]. unfold add, inv; simpl. intros [Hm Hn].
  destruct (is_empty (strip s)); [split; assumption|].
  destruct (existsb (String.eqb (strip s)) seen) eqn:E; [split; assumption|].
  simpl. split.
  - intros x. rewrite in_app_iff. simpl. rewrite Hm. tauto.
  - apply NoDup_app; [exact Hn | constructor; [intros []|constructor] |].
    intros x Hx [<- | []]. apply Hm in Hx. apply existsb_eqb_iff in Hx. congruence.
Qed.

Lemma fold_add_inv l st : inv st -> inv (fold_left add l st).
Proof.
  revert st. induction l as [|s l IH]; intros st H; simpl; [exact H|].
  apply IH, add_inv, H.
Qed.

(** [fold_left add] appends, in order, the non-empty stripped strings not
    yet present. *)
Lemma fold_add_extends l st :
  inv st ->
  exists new, snd (fold_left add l st) = (snd st ++ new)%list /\
    (forall x, In x new -> ~ In x (snd st) /\ In x (map strip l) /\ is_empty x = false).
Proof.
  revert st. induction l as [|s l IH]; intros st H; simpl.
  - exists []. rewrite app_nil_r. split; [reflexivity | intros _ []].
  - destruct (IH (add st s) (add_inv st s H)) as (new & Heq & Hnew).
    destruct st as [seen ord]. unfold add in Heq, Hnew |- *. simpl in *.
    destruct (is_empty (strip s)) eqn:E0.
    + exists new. split; [exact Heq|]. intros x Hx.
      destruct (Hnew x Hx) as (H1 & H2 & H3). split; [exact H1|]. split; [right; exact H2 | exact H3].
    + destruct (existsb (String.eqb (strip s)) seen) eqn:E1.
      * exists new. split; [exact Heq|]. intros x Hx.
        destruct (Hnew x Hx) as (H1 & H2 & H3). split; [exact H1|]. split; [right; exact H2 | exact H3].
      * exists (strip s :: new). simpl in Heq. rewrite Heq, <- app_assoc. split; [reflexivity|].
        intros x [<- | Hx].
        -- split; [|split; [left; reflexivity | exact E0]].
           intros Hin. apply (proj2 (proj1 H (strip s))) in Hin.
           apply existsb_eqb_iff in Hin. simpl in Hin. congruence.
        -- destruct (Hnew x Hx) as (H1 & H2 & H3).
           split; [intros Hin; apply H1, in_app_iff; left; exact Hin|].
           split; [right; exact H2 | exact H3].
Qed.

Lemma fold_add_mono l st y : In y (snd st) -> In y (snd (fold_left add l st)).
Proof.
  revert st. induction l as [|s l IH]; intros st Hy; simpl; [exact Hy|].
  apply IH. destruct st as [seen ord]. unfold add. simpl in Hy.
  destruct (is_empty (strip s)); [exact Hy|].
  destruct (existsb _ seen); [exact Hy|]. simpl. apply in_app_iff. left. exact Hy.
Qed.

Lemma fold_add_complete l st x :
  inv st -> In x (map strip l) -> is_empty x = false -> In x (snd (fold_left add l st)).
Proof.
  revert st. induction l as [|s l IH]; intros st Hi Hin Hne; [contradiction|].
  simpl in Hin |- *. destruct Hin as [<- | Hin]; [|apply IH; [apply add_inv, Hi | exact Hin | exact Hne]].
  apply fold_add_mono. destruct st as [seen ord]. unfold add. simpl.
  rewrite Hne.
  destruct (existsb (String.eqb (strip s)) seen) eqn:E.
  - apply existsb_eqb_iff in E. apply (proj1 (proj1 Hi (strip s))). exact E.
  - simpl. apply in_app_iff. right. left. reflexivity.
Qed.

Lemma index_of_app_l x l1 l2 : In x l1 -> Seq.index_of x (l1 ++ l2) = Seq.index_of x l1.
Proof.
  induction l1 as [|y l1 IH]; intros H; [contradiction|]. simpl.
  destruct (String.eqb_spec x y); [reflexivity|].
  destruct H as [-> | H]; [congruence|]. rewrite IH by exact H. reflexivity.
Qed.

Lemma index_of_lt_length x l : In x l -> (Seq.index_of x l < List.length l)%nat.
Proof.
  induction l as [|y l IH]; intros H; [contradiction|]. simpl.
  destruct (String.eqb_spec x y); [lia|].
  destruct H as [-> | H]; [congruence|]. specialize (IH H). lia.
Qed.

Lemma index_of_app_r y l1 l2 :
  ~ In y l1 -> Seq.index_of y (l1 ++ l2) = (List.length l1 + Seq.index_of y l2)%nat.
Proof.
  induction l1 as [|z l1 IH]; intros H; [reflexivity|]. simpl.
  destruct (String.eqb_spec y z) as [-> | Hne]; [exfalso; apply H; left; reflexivity|].
  rewrite IH by (intros Hin; apply H; right; exact Hin). reflexivity.
Qed.

End QueryBuilderProps.

Section QueryBuilderClaim.
Import Py Seq QueryBuilder QueryBuilderProps.

Lemma inv_nil : inv ([], []).
Proof. split; [intros x; simpl; tauto | constructor]. Qed.

(** C9 (amended): for an actor that is non-empty after stripping, the
    variants are pairwise distinct, are exactly the non-empty stripped
    strings added, and appear in order of first appearance in the
    sequence actor+role+city, actor+party+city, actor+city, actor+role,
    actor+party, actor+extra (and +city), actor, quoted actor: a string
    added within any prefix of that sequence precedes every variant not
    added within it. *)
Theorem build_query_variants_order (actor : string) (cks extras : option (list string))
    (Ha : is_empty (strip actor) = false) :
  let adds := all_adds (strip actor) (_norm_list cks) (_norm_list extras) in
  let out := build_query_variants actor cks extras in
  NoDup out /\
  (forall x, In x out <-> In x (map strip adds) /\ is_empty x = false) /\
  (forall pre suf x y, adds = (pre ++ suf)%list ->
     In x (map strip pre) -> is_empty x = false ->
     In y out -> ~ In y (map strip pre) -> (index_of x out < index_of y out)%nat).
Proof.
  cbv zeta. unfold build_query_variants. cbv zeta. rewrite Ha.
  set (adds := all_adds (strip actor) (_norm_list cks) (_norm_list extras)).
  split; [exact (proj2 (fold_add_inv adds _ inv_nil))|]. split.
  - intros x. split.
    + intros Hx. destruct (fold_add_extends adds _ inv_nil) as (new & Heq & Hnew).
      rewrite Heq in Hx. simpl in Hx. destruct (Hnew x Hx) as (_ & H2 & H3). tauto.
    + intros [H1 H2]. exact (fold_add_complete adds _ x inv_nil H1 H2).
  - intros pre suf x y Hps Hx Hxe Hy Hyp. rewrite Hps in Hy |- *.
    rewrite fold_left_app in Hy |- *.
    set (st1 := fold_left add pre ([], [])) in *.
    assert (Hi1 : inv st1) by exact (fold_add_inv pre _ inv_nil).
    destruct (fold_add_extends suf st1 Hi1) as (new & Heq & Hnew).
    rewrite Heq in Hy |- *.
    assert (Hx1 : In x (snd st1)) by exact (fold_add_complete pre _ x inv_nil Hx Hxe).
    assert (Hy1 : ~ In y (snd st1)).
    { intros Hin. destruct (fold_add_extends pre _ inv_nil) as (new0 & Heq0 & Hnew0).
      fold st1 in Heq0. rewrite Heq0 in Hin. simpl in Hin.
      destruct (Hnew0 y Hin) as (_ & H2 & _). exact (Hyp H2). }
    rewrite (index_of_app_l x _ _ Hx1), (index_of_app_r y _ _ Hy1).
    pose proof (index_of_lt_length x _ Hx1). lia.
Qed.

Lemma build_query_variants_order_witness :
  NoDup (build_query_variants "Jane Doe" (Some ["Springfield"]) None).
Proof.
  exact (proj1 (build_query_variants_order "Jane Doe" (Some ["Springfield"]) None
                  ltac:(vm_compute; reflexivity))).
Defined.

(** C9 (counterexample): the actor+city variant comes before the
    actor+role variant. *)
Lemma locality_variant_before_role_variant :
  let out := build_query_variants "Jane Doe" (Some ["Springfield"]) None in
  In "Jane Doe Springfield" out /\ In "Jane Doe alcalde" out /\
  (index_of "Jane Doe Springfield" out < index_of "Jane Doe alcalde" out)%nat.
Proof.
  cbv zeta. split; [|split].
  - apply existsb_eqb_iff. vm_compute. reflexivity.
  - apply existsb_eqb_iff. vm_compute. reflexivity.
  - apply Nat.ltb_lt. vm_compute. reflexivity.
Qed.
End QueryBuilderClaim.

(* ------------------------------------------------------------------ *)
(** ** Quota and spacing of the auto-ingestion tick *)

Module SchedulerProps.
Import Scheduler.

Lemma reset_idem c today :
  _reset_quota_if_needed (_reset_quota_if_needed c today) today = _reset_quota_if_needed c today.
Proof.
  unfold _reset_quota_if_needed. destruct (autoLastReset c) as [d|] eqn:E.
  - destruct (Z.eqb_spec d today).
    + rewrite E. rewrite (proj2 (Z.eqb_eq d today) e). reflexivity.
    + simpl. rewrite Z.eqb_refl. reflexivity.
  - simpl. rewrite Z.eqb_refl. reflexivity.
Qed.

Lemma reset_sets_today c today : autoLastReset (_reset_quota_if_needed c today) = Some today.
Proof.
  unfold _reset_quota_if_needed. destruct (autoLastReset c) as [d|] eqn:E; [|reflexivity].
  destruct (Z.eqb_spec d today); [subst; exact E | reflexivity].
Qed.

Lemma reset_plan c today : plan (_reset_quota_if_needed c today) = plan c.
Proof.
  unfold _reset_quota_if_needed. destruct (autoLastReset c); [destruct (_ =? _)%Z|]; reflexivity.
Qed.

Lemma reset_runs c today :
  autoRunsToday (_reset_quota_if_needed c today) =
  match autoLastReset c with
  | Some d => if (d =? today)%Z then autoRunsToday c else 0%Z
  | None => 0%Z
  end.
Proof.
  unfold _reset_quota_if_needed. destruct (autoLastReset c); [destruct (_ =? _)%Z|]; reflexivity.
Qed.

Lemma reset_last_run c today : lastAutoRunAt (_reset_quota_if_needed c today) = lastAutoRunAt c.
Proof.
  unfold _reset_quota_if_needed. destruct (autoLastReset c); [destruct (_ =? _)%Z|]; reflexivity.
Qed.

Lemma reset_fixed c today : autoLastReset c = Some today -> _reset_quota_if_needed c today = c.
Proof. intros H. unfold _reset_quota_if_needed. rewrite H, Z.eqb_refl. reflexivity. Qed.

Lemma runs_same_day_bound today nows c q :
  autoLastReset c = Some today -> _quota_for_plan (plan c) = Some q ->
  (runs_same_day today nows c <= Z.to_nat (q - autoRunsToday c))%nat.
Proof.
  revert c. induction nows as [|now rest IH]; intros c Hr Hq; simpl; [lia|].
  unfold tick_decide. rewrite (reset_fixed c today Hr), Hq.
  destruct (q <=? autoRunsToday c)%Z eqn:Eq.
  - apply IH; assumption.
  - apply Z.leb_gt in Eq. destruct (_should_run_now c now).
    + assert (IH' : (runs_same_day today rest (after_run now c)
                     <= Z.to_nat (q - autoRunsToday (after_run now c)))%nat)
        by (apply IH; assumption).
      simpl in IH'. lia.
    + apply IH; assumption.
Qed.

Lemma runs_same_day_reset today nows c :
  runs_same_day today nows c = runs_same_day today nows (_reset_quota_if_needed c today).
Proof.
  destruct nows as [|now rest]; [reflexivity|]. simpl.
  unfold tick_decide. rewrite reset_idem. reflexivity.
Qed.

(** Without failing kickoffs, a campaign's runs within one calendar day
    stay within its plan's quota, whatever the number of ticks. *)
Lemma quota_respected_when_kickoffs_return today nows c q :
  _quota_for_plan (plan c) = Some q -> (0 <= autoRunsToday c)%Z ->
  (runs_same_day today nows c <= Z.to_nat q)%nat.
Proof.
  intros Hq Hn. rewrite runs_same_day_reset.
  pose proof (runs_same_day_bound today nows (_reset_quota_if_needed c today) q
                (reset_sets_today c today)) as H.
  rewrite reset_plan in H. specialize (H Hq).
  rewrite reset_runs in H. destruct (autoLastReset c) as [d|]; [destruct (d =? today)%Z|];
    lia.
Qed.

End SchedulerProps.

Section SchedulerClaims.
Import Scheduler SchedulerProps.

Definition fresh_basic (id : string) : campaign :=
  mk_campaign id BASIC true 0 None None.

(** Hourly ticks at HH:05 of day 0. *)
Definition hourly_ticks (ok : string -> bool) : list (Z * Z * (string -> bool)) :=
  map (fun h => (0%Z, (3600 * Z.of_nat h + 300)%Z, ok)) (seq 0 24).

(** The kickoff of campaign "B" raises (for instance its commit fails and
    [kickoff_campaign_ingest] re-raises); that of "A" returns. *)
Definition b_fails (id : string) : bool := negb (String.eqb id "B").

(** C7 (failing input): two Basic campaigns "A" and "B", hourly ticks over
    one day, "B"'s kickoff raising each time. "A"'s pipeline runs and
    commits at every tick, but the exception from "B" leaves
    [campaign_tick] before its commit, so "A"'s counters are never saved:
    "A" runs 24 times in the day against a quota of 1. *)
Theorem basic_quota_exceeded_when_later_kickoff_raises :
  runs_of "A" (snd (run_ticks (hourly_ticks b_fails) [fresh_basic "A"; fresh_basic "B"])) = 24%nat /\
  _quota_for_plan BASIC = Some 1%Z.
Proof. split; vm_compute; reflexivity. Qed.

(** When every kickoff returns, the same ticks run "A" once. *)
Example basic_quota_kept_when_kickoffs_return :
  runs_of "A" (snd (run_ticks (hourly_ticks (fun _ => true))
                              [fresh_basic "A"; fresh_basic "B"])) = 1%nat.
Proof. vm_compute. reflexivity. Qed.

(** C8 (counterexample): a Basic campaign that ran at 23:05 of day 0 is
    skipped by the 00:05 tick of day 1, yet that tick resets its run
    counter from 1 to 0. *)
Lemma spacing_skip_still_resets_counter :
  let c := mk_campaign "A" BASIC true 1 (Some 0%Z) (Some (86400 - 3600 + 300)%Z) in
  let '(c1, go) := tick_decide 1 (86400 + 300) c in
  go = false /\ autoRunsToday c = 1%Z /\ autoRunsToday c1 = 0%Z.
Proof. vm_compute. repeat split. Qed.

(** C8 (amended): an attempt less than 4 hours after the recorded last run
    is skipped (the pipeline is not started) and leaves [lastAutoRunAt]
    unchanged; [autoRunsToday] is unchanged too, except for the daily
    reset to 0 when the calendar date differs from the last reset date. *)
Theorem spacing_skip (c : campaign) (today now t : Z)
    (Hl : lastAutoRunAt c = Some t) (Hd : (now - t < 4 * 3600)%Z) :
  let c1 := fst (tick_decide today now c) in
  snd (tick_decide today now c) = false /\
  lastAutoRunAt c1 = Some t /\
  autoRunsToday c1 = match autoLastReset c with
                     | Some d => if (d =? today)%Z then autoRunsToday c else 0%Z
                     | None => 0%Z
                     end.
Proof.
  assert (Hs : _should_run_now (_reset_quota_if_needed c today) now = false).
  { unfold _should_run_now. rewrite reset_last_run, Hl.
    apply negb_false_iff, Z.ltb_lt. exact Hd. }
  assert (Hc : fst (tick_decide today now c) = _reset_quota_if_needed c today /\
               snd (tick_decide today now c) = false).
  { unfold tick_decide. destruct (_quota_for_plan _) as [q|];
      [destruct (q <=? _)%Z|]; simpl; rewrite ?Hs; split; reflexivity. }
  cbv zeta. destruct Hc as [-> ->]. split; [reflexivity|].
  split; [rewrite reset_last_run; exact Hl | apply reset_runs].
Qed.

Lemma spacing_skip_witness :
  snd (tick_decide 0 7200 (mk_campaign "A" PRO true 1 (Some 0%Z) (Some 3600%Z))) = false.
Proof.
  exact (proj1 (spacing_skip (mk_campaign "A" PRO true 1 (Some 0%Z) (Some 3600%Z)) 0 7200 3600
                  eq_refl ltac:(vm_compute; reflexivity))).
Defined.
End SchedulerClaims.

(* ------------------------------------------------------------------ *)
(** ** Persistence of a campaign run *)

Section PersistClaim.
Import IngestAuto.

Definition one_candidate : list cand :=
  [mk_cand (Some "Nota") (Some "https://x.com/nota") None].

(** C1 (failing input): running the persistence step of
    [kickoff_campaign_ingest] twice on the same candidate list for campaign
    "c1", starting from an empty table, stores the pair
    ("c1", "https://x.com/nota") twice: no existing row is looked up. *)
Theorem persist_twice_duplicates :
  rows_with (persist "c1" 25 one_candidate (persist "c1" 25 one_candidate [])) "c1"
            "https://x.com/nota" = 2%nat.
Proof. vm_compute. reflexivity. Qed.
End PersistClaim.

Module PersistProps.
Import Py IngestAuto.

Definition present (cid : string) (db : list row) (it : cand) : bool :=
  existsb (fun r => String.eqb (r_campaignId r) cid && String.eqb (r_url r) (or_empty (c_url it))) db.

Lemma present_app cid db extra it : present cid db it = true -> present cid (db ++ extra) it = true.
Proof. unfold present. rewrite existsb_app. intros ->. reflexivity. Qed.

Lemma insert_checked_all_present cid items db :
  forall it, In it items -> present cid (insert_checked cid items db) it = true.
Proof.
  unfold insert_checked. revert db. induction items as [|x items IH]; intros db it Hin;
    [contradiction|].
  simpl. destruct Hin as [Hx | Hin]; [subst x | apply IH; exact Hin].
  assert (Hmono : forall l d, present cid d it = true ->
            present cid (fold_left (fun db it0 =>
              if existsb (fun r => String.eqb (r_campaignId r) cid
                                   && String.eqb (r_url r) (or_empty (c_url it0))) db
              then db
              else (db ++ [mk_row cid (or_empty (c_title it0)) (or_empty (c_url it0))
                                  (c_publishedAt it0) None])%list) l d) it = true).
  { induction l as [|y l IHl]; intros d Hd; simpl; [exact Hd|].
    apply IHl. destruct (existsb _ d); [exact Hd | apply present_app, Hd]. }
  apply Hmono. fold (present cid db it). destruct (present cid db it) eqn:E; [exact E|].
  unfold present. rewrite existsb_app. simpl. rewrite !String.eqb_refl, orb_true_r. reflexivity.
Qed.

Lemma insert_checked_noop cid items db :
  (forall it, In it items -> present cid db it = true) -> insert_checked cid items db = db.
Proof.
  unfold insert_checked. revert db. induction items as [|x items IH]; intros db H; [reflexivity|].
  simpl. fold (present cid db x). rewrite (H x (or_introl eq_refl)).
  apply IH. intros it Hin. apply H. right. exact Hin.
Qed.

(** The checked sibling path is idempotent: a second run with the same
    candidates inserts nothing. *)
Lemma insert_checked_idempotent cid items db :
  insert_checked cid items (insert_checked cid items db) = insert_checked cid items db.
Proof. apply insert_checked_noop, insert_checked_all_present. Qed.

End PersistProps.

(* ------------------------------------------------------------------ *)
(** ** [str.strip] on the byte list *)

Module StripProps.
Import Py.
Local Open Scope list_scope.

(** [lstrip] on the list of bytes. *)
Fixpoint dw (l : list ascii) : list ascii :=
  match l with
  | [] => []
  | c :: r => if is_space c then dw r else l
  end.

Definition L (s : string) : list ascii := list_ascii_of_string s.

Lemma L_inj s t : L s = L t -> s = t.
Proof.
  unfold L. intros H. rewrite <- (string_of_list_ascii_of_string s),
    <- (string_of_list_ascii_of_string t), H. reflexivity.
Qed.

Lemma L_app s t : L (s ++ t)%string = L s ++ L t.
Proof. induction s as [|c s IH]; simpl; [reflexivity|]. unfold L in *. rewrite IH. reflexivity. Qed.

Lemma L_lstrip s : L (lstrip s) = dw (L s).
Proof. induction s as [|c s IH]; simpl; [reflexivity|]. destruct (is_space c); [exact IH|reflexivity]. Qed.

Lemma L_rev_str s acc : L (rev_str s acc) = rev (L s) ++ L acc.
Proof.
  revert acc. induction s as [|c s IH]; intros acc; simpl; [reflexivity|].
  rewrite IH. simpl. rewrite <- app_assoc. reflexivity.
Qed.

Lemma L_rstrip s : L (rstrip s) = rev (dw (rev (L s))).
Proof.
  unfold rstrip. rewrite L_rev_str, L_lstrip, L_rev_str. simpl. rewrite !app_nil_r. reflexivity.
Qed.

Lemma L_strip s : L (strip s) = rev (dw (rev (dw (L s)))).
Proof. unfold strip. rewrite L_rstrip, L_lstrip. reflexivity. Qed.

Lemma dw_idem l : dw (dw l) = dw l.
Proof. induction l as [|c l IH]; simpl; [reflexivity|]. destruct (is_space c) eqn:E; [exact IH|]. simpl. rewrite E. reflexivity. Qed.

Lemma dw_split l : exists S, l = S ++ dw l /\ Forall (fun c => is_space c = true) S.
Proof.
  induction l as [|c l IH]; simpl; [exists []; auto|].
  destruct (is_space c) eqn:E.
  - destruct IH as (S & HS & HF). exists (c :: S). simpl. rewrite <- HS. auto.
  - exists []. auto.
Qed.

(** A list whose first byte is no space ([dw] leaves it alone). *)
Definition head_ok (l : list ascii) : Prop :=
  match l with [] => True | c :: _ => is_space c = false end.

Lemma dw_head_ok l : head_ok l -> dw l = l.
Proof. destruct l as [|c l]; simpl; [reflexivity|]. intros H. rewrite H. reflexivity. Qed.

Lemma head_ok_dw l : head_ok (dw l).
Proof. induction l as [|c l IH]; simpl; [exact I|]. destruct (is_space c) eqn:E; [exact IH|exact E]. Qed.

Lemma head_ok_app l1 l2 : l1 <> [] -> head_ok (l1 ++ l2) -> head_ok l1.
Proof. destruct l1; simpl; [congruence | auto]. Qed.

Lemma head_ok_rstrip m : head_ok m -> head_ok (rev (dw (rev m))).
Proof.
  intros Hm. destruct (dw_split (rev m)) as (S & HS & _).
  destruct (dw (rev m)) as [|c d] eqn:Ed; [exact I|].
  assert (m = rev (c :: d) ++ rev S) as Em.
  { rewrite <- rev_app_distr, <- HS, rev_involutive. reflexivity. }
  rewrite Em in Hm. apply head_ok_app in Hm; [exact Hm|].
  intro H. apply (f_equal (@List.length ascii)) in H. rewrite length_rev in H. discriminate.
Qed.

Lemma strip_idem s : strip (strip s) = strip s.
Proof.
  apply L_inj. rewrite !L_strip.
  set (m := dw (L s)).
  assert (Hm : head_ok m) by apply head_ok_dw.
  rewrite (dw_head_ok _ (head_ok_rstrip m Hm)), rev_involutive, dw_idem. reflexivity.
Qed.

Lemma strip_empty_iff s : is_empty (strip s) = true <-> L (strip s) = [].
Proof. destruct (strip s); simpl; split; congruence. Qed.

(** A string whose first and last bytes are no space is its own strip. *)
Lemma strip_edges s : head_ok (L s) -> head_ok (rev (L s)) -> strip s = s.
Proof.
  intros H1 H2. apply L_inj. rewrite L_strip, (dw_head_ok _ H1), (dw_head_ok _ H2), rev_involutive.
  reflexivity.
Qed.

Lemma strip_quote s : strip (Cascade.quote s) = Cascade.quote s.
Proof.
  apply strip_edges; unfold Cascade.quote, L; simpl; [reflexivity|].
  fold (L (s ++ String "034" EmptyString)). rewrite L_app. simpl.
  rewrite rev_app_distr. simpl. reflexivity.
Qed.

Lemma is_empty_L s : is_empty s = true <-> L s = [].
Proof. destruct s; simpl; split; congruence. Qed.

End StripProps.

(* ------------------------------------------------------------------ *)
(** ** Loops left by [break] once enough items are kept *)

Module CollectProps.
Import Collect.

(** The loop keeps the first [max 1 (size - count)] items the filter keeps:
    the check comes after an append, so a [size] of zero or less still
    yields one item. *)
Lemma collect_upto_firstn {A B} (keep : A -> option B) size l count :
  collect_upto keep size l count = firstn (Z.to_nat (Z.max 1 (size - count))) (kept keep l).
Proof.
  unfold kept. revert count. induction l as [|x l IH]; intros count; simpl.
  - destruct (Z.to_nat _); reflexivity.
  - destruct (keep x) as [y|]; [|apply IH].
    destruct (size <=? count + 1)%Z eqn:E; simpl.
    + apply Z.leb_le in E. replace (Z.to_nat (Z.max 1 (size - count))) with 1%nat by lia.
      reflexivity.
    + apply Z.leb_gt in E. rewrite IH.
      replace (Z.to_nat (Z.max 1 (size - count))) with (S (Z.to_nat (Z.max 1 (size - (count + 1)))))
        by lia.
      reflexivity.
Qed.

Lemma in_kept {A B} (keep : A -> option B) l y :
  In y (kept keep l) <-> exists x, In x l /\ keep x = Some y.
Proof.
  unfold kept. rewrite in_flat_map. split.
  - intros (x & Hx & Hy). exists x. split; [exact Hx|].
    destruct (keep x); simpl in Hy; [destruct Hy as [<-|[]]; reflexivity | contradiction].
  - intros (x & Hx & Hy). exists x. rewrite Hy. simpl. auto.
Qed.

Lemma in_firstn_in {A} n (l : list A) x : In x (firstn n l) -> In x l.
Proof.
  intros H. rewrite <- (firstn_skipn n l). apply in_or_app. left. exact H.
Qed.

End CollectProps.

(* ------------------------------------------------------------------ *)
(** ** The loop of [fetch_news] *)

Section FetchNewsProps.
Import Py NewsFetcher FetchNews.
Variable urlparse : string -> option (string * string).
Variable unquote : string -> string.

Lemma entry_item_some cutoff e it :
  entry_item urlparse unquote cutoff e = Some it ->
  (forall dt, e_published e = Some dt -> (cutoff <= dt)%Z) /\
  it = mk_fetched (strip (e_title e)) (clean_link urlparse unquote (strip (e_link e)))
                  (e_source e) (e_published e) (or_empty (e_summary e)) /\
  strip (e_title e) <> EmptyString /\ clean_link urlparse unquote (strip (e_link e)) <> EmptyString.
Proof.
  unfold entry_item. intros Hk.
  assert (Ec : forall dt, e_published e = Some dt -> (cutoff <= dt)%Z).
  { intros dt Hd. rewrite Hd in Hk. destruct (dt <? cutoff)%Z eqn:Ed; [discriminate|].
    apply Z.ltb_ge in Ed. exact Ed. }
  split; [exact Ec|].
  destruct (match e_published e with Some dt => (dt <? cutoff)%Z | None => false end);
    [discriminate|].
  destruct (is_empty (strip (e_title e))) eqn:E1; [discriminate|].
  destruct (is_empty (clean_link urlparse unquote (strip (e_link e)))) eqn:E2; [discriminate|].
  injection Hk as <-. repeat split; intros H; rewrite H in *; discriminate.
Qed.

(** X3: once the feed is fetched, [fetch_news] returns the first
    [max(1, size)] entries that pass its filters (in the window, non-empty
    stripped title and cleaned link), in feed order: the [break] comes
    after the append, so [size <= 0] still returns one item when there is
    one. *)
Theorem fetch_news_first_valid_entries (es : list entry) (now size days_back : Z) :
  fetch_news urlparse unquote (Some es) now size days_back =
  Some (firstn (Z.to_nat (Z.max 1 size))
          (Collect.kept (entry_item urlparse unquote (now - 86400 * days_back)) es)).
Proof.
  unfold fetch_news, fetch_loop. rewrite CollectProps.collect_upto_firstn, Z.sub_0_r.
  reflexivity.
Qed.

(** X4: every item [fetch_news] returns comes from an entry of the feed,
    keeps its source and date, has a non-empty title without surrounding
    whitespace, a non-empty link equal to the cleaned stripped link of the
    entry, and a date, when there is one, no older than [days_back] days. *)
Theorem fetch_news_item_invariants (es : list entry) (now size days_back : Z)
    (its : list fetched_item) (it : fetched_item) :
  fetch_news urlparse unquote (Some es) now size days_back = Some its -> In it its ->
  exists e, In e es /\
    f_title it = strip (e_title e) /\ f_title it <> EmptyString /\ strip (f_title it) = f_title it /\
    f_link it = clean_link urlparse unquote (strip (e_link e)) /\ f_link it <> EmptyString /\
    f_source it = e_source e /\ f_published_at it = e_published e /\
    (forall dt, f_published_at it = Some dt -> (now - 86400 * days_back <= dt)%Z).
Proof.
  unfold fetch_news, fetch_loop. intros H Hin. injection H as <-.
  rewrite CollectProps.collect_upto_firstn in Hin.
  apply CollectProps.in_firstn_in, CollectProps.in_kept in Hin as (e & He & Hk).
  exists e. split; [exact He|].
  destruct (entry_item_some _ e it Hk) as (Ec & -> & E1 & E2). simpl.
  repeat split; auto.
  - apply StripProps.strip_idem.
Qed.
End FetchNewsProps.

Lemma fetch_news_item_invariants_witness :
  let e := FetchNews.mk_entry " Alcalde " "https://x.com/a" None (Some "El Norte") (Some 100%Z) in
  FetchNews.fetch_news UrlLib.urlparse UrlLib.unquote_plus (Some [e]) 100 5 0
    = Some [NewsFetcher.mk_fetched "Alcalde" "https://x.com/a" (Some "El Norte") (Some 100%Z) ""] /\
  exists e', In e' [e] /\
    NewsFetcher.f_title (NewsFetcher.mk_fetched "Alcalde" "https://x.com/a" (Some "El Norte") (Some 100%Z) "")
      = Py.strip (FetchNews.e_title e') /\ True.
Proof.
  cbv zeta. split; [vm_compute; reflexivity|].
  destruct (fetch_news_item_invariants UrlLib.urlparse UrlLib.unquote_plus
    [FetchNews.mk_entry " Alcalde " "https://x.com/a" None (Some "El Norte") (Some 100%Z)] 100 5 0
    [NewsFetcher.mk_fetched "Alcalde" "https://x.com/a" (Some "El Norte") (Some 100%Z) ""]
    (NewsFetcher.mk_fetched "Alcalde" "https://x.com/a" (Some "El Norte") (Some 100%Z) ""))
    as (e' & He & Ht & _).
  - vm_compute. reflexivity.
  - left. reflexivity.
  - exists e'. auto.
Defined.

(* ------------------------------------------------------------------ *)
(** ** The feed loops of [ingest_auto] *)

Section IngestFetchProps.
Import Py IngestAuto IngestFetch.
Variable feedparse : string -> list rss_entry.

(** The entries the loop keeps when [since] is naive: a non-empty title
    and link. *)
Definition valid (e : rss_entry) : bool :=
  negb (is_empty (or_empty (x_title e)) || is_empty (or_empty (x_link e))).

Definition undated (e : rss_entry) : bool :=
  match x_dt e with Some _ => false | None => true end.

Definition to_cand (e : rss_entry) : cand :=
  mk_cand (Some (or_empty (x_title e))) (Some (or_empty (x_link e))) None.

Lemma rss_item_naive s e :
  rss_item (Naive s) e =
  if valid e then (if undated e then Some (Some (to_cand e)) else None) else Some None.
Proof.
  unfold rss_item, valid, undated, to_cand.
  destruct (is_empty (or_empty (x_title e)) || is_empty (or_empty (x_link e))); [reflexivity|].
  destruct (x_dt e); reflexivity.
Qed.

Lemma rss_loop_naive s limit es out :
  (Z.of_nat (List.length out) < Z.max 1 limit)%Z ->
  rss_loop (Naive s) limit es out =
  let P := firstn (Z.to_nat (Z.max 1 limit) - List.length out) (filter valid es) in
  if forallb undated P then Some (out ++ map to_cand P)%list else None.
Proof.
  revert out. induction es as [|e rest IH]; intros out Hlt; cbv zeta.
  - rewrite firstn_nil. cbn. rewrite app_nil_r. reflexivity.
  - cbn [rss_loop filter]. rewrite rss_item_naive.
    destruct (valid e); [|apply IH; exact Hlt].
    destruct (Z.to_nat (Z.max 1 limit) - List.length out)%nat as [|m] eqn:Em; [lia|].
    cbn [firstn forallb map]. destruct (undated e); cbn [andb]; [|reflexivity].
    destruct (Z.leb_spec limit (Z.of_nat (List.length (out ++ [to_cand e])))) as [Hle|Hgt].
    + rewrite length_app in Hle. cbn [List.length] in Hle.
      assert (m = 0%nat) as -> by lia. cbn. reflexivity.
    + rewrite IH by (rewrite length_app in Hgt |- *; cbn [List.length] in Hgt |- *; lia).
      cbv zeta.
      assert (Hm : (Z.to_nat (Z.max 1 limit) - List.length (out ++ [to_cand e]))%nat = m)
        by (rewrite length_app; cbn [List.length]; lia).
      rewrite Hm. destruct (forallb undated (firstn m (filter valid rest))); [|reflexivity].
      rewrite <- app_assoc. reflexivity.
Qed.

Lemma rss_collect_naive s limit es :
  let P := firstn (Z.to_nat (Z.max 1 limit)) (filter valid (firstn (Z.to_nat (Z.max 50 limit)) es)) in
  rss_collect (Naive s) limit es = if forallb undated P then Some (map to_cand P) else None.
Proof.
  unfold rss_collect. rewrite rss_loop_naive by (cbn [List.length]; lia).
  cbv zeta. rewrite Nat.sub_0_r. reflexivity.
Qed.

Lemma rss_collect_safe_naive s limit u :
  let P := firstn (Z.to_nat (Z.max 1 limit))
             (filter valid (firstn (Z.to_nat (Z.max 50 limit)) (feedparse u))) in
  rss_collect (Naive s) limit (feedparse u)
    = (if forallb undated P then Some (map to_cand P) else None) /\
  match rss_collect (Naive s) limit (feedparse u) with Some l => l | None => [] end
    = (if forallb undated P then map to_cand P else []).
Proof.
  cbv zeta. rewrite rss_collect_naive. cbv zeta.
  destruct (forallb undated _); split; reflexivity.
Qed.

End IngestFetchProps.

(* ------------------------------------------------------------------ *)
(** ** [run_alert]: the hash check before each insertion *)

Module AlertProps.
Import NewsFetcher Alerts.

Section Props.
Variable sha256 : string -> string.
Variable fetch_news : alert_query -> option (list fetched_item).

Definition hcount (st : store) (h : string) : nat :=
  List.length (filter (fun r => String.eqb (s_hash r) h) (items st)).

Definition hashes (st : store) : list string := map s_hash (items st).

Lemma filter_nodup_le1 (l : list stored) h :
  NoDup (map s_hash l) -> (List.length (filter (fun r => String.eqb (s_hash r) h) l) <= 1)%nat.
Proof.
  induction l as [|r l IH]; simpl; intros Hn; [lia|]. inversion Hn as [|x y Hx Hy]; subst.
  destruct (String.eqb_spec (s_hash r) h); simpl; [|apply IH; exact Hy].
  subst. assert (filter (fun r0 => String.eqb (s_hash r0) (s_hash r)) l = []) as ->; [|simpl; lia].
  destruct (filter (fun r0 => String.eqb (s_hash r0) (s_hash r)) l) as [|r' l'] eqn:E; [reflexivity|].
  exfalso. assert (In r' (filter (fun r0 => String.eqb (s_hash r0) (s_hash r)) l)) as Hin
    by (rewrite E; left; reflexivity).
  apply filter_In in Hin as [Hin He]. apply String.eqb_eq in He. apply Hx.
  rewrite <- He. apply in_map. exact Hin.
Qed.

Lemma filter_nil_notin (l : list stored) h :
  filter (fun r => String.eqb (s_hash r) h) l = [] -> ~ In h (map s_hash l).
Proof.
  intros E Hin. apply in_map_iff in Hin as (r & Hr & Hin).
  assert (In r (filter (fun r => String.eqb (s_hash r) h) l)) as H'.
  { apply filter_In. split; [exact Hin | apply String.eqb_eq; exact Hr]. }
  rewrite E in H'. contradiction.
Qed.

Lemma filter_cons_in (l : list stored) h r0 rest :
  filter (fun r => String.eqb (s_hash r) h) l = r0 :: rest -> In h (map s_hash l).
Proof.
  intros E. assert (In r0 (filter (fun r => String.eqb (s_hash r) h) l)) as H' by (rewrite E; left; reflexivity).
  apply filter_In in H' as [Hin He]. apply String.eqb_eq in He. rewrite <- He. apply in_map. exact Hin.
Qed.

(** One [ingest_items] call of an alert with [analyze] off, on a store
    whose hashes are distinct: it succeeds and only appends rows. *)
Lemma ingest_items_nodup al its st n :
  a_analyze al = false -> NoDup (hashes st) ->
  exists st' new, ingest_items sha256 al its st n = Some (st', n + List.length new)%nat /\
    NoDup (hashes st') /\ items st' = (items st ++ new)%list /\
    notifications st' = notifications st /\
    Forall (fun r => s_campaignId r = a_campaignId al /\ s_status r = QUEUED) new.
Proof.
  intros Ha. revert st n. induction its as [|it rest IH]; intros st n Hn; simpl.
  - exists st, []. rewrite app_nil_r, Nat.add_0_r. repeat split; auto.
  - pose proof (filter_nodup_le1 (items st) (sha256 (f_link it)) Hn) as Hle.
    destruct (filter (fun r => String.eqb (s_hash r) (sha256 (f_link it))) (items st))
      as [|r0 [|r1 l]] eqn:Ef; [| |simpl in Hle; lia].
    + unfold item_status_of. rewrite Ha.
      set (r := mk_stored (a_campaignId al) (f_link it) (f_title it) (f_summary it)
                  (f_published_at it) QUEUED (sha256 (f_link it))).
      set (st1 := mk_store (items st ++ [r])%list (notifications st)).
      assert (Hn1 : NoDup (hashes st1)).
      { unfold hashes, st1. simpl. rewrite map_app. simpl.
        apply NoDup_app; [exact Hn | constructor; [intros []|constructor] |].
        intros x Hx [<-|[]]. exact (filter_nil_notin _ _ Ef Hx). }
      destruct (IH st1 (S n) Hn1) as (st' & new & Hr & Hn' & Hi & Hno & Hc).
      exists st', (r :: new). rewrite Hr. split; [f_equal; f_equal; simpl; lia|].
      split; [exact Hn'|]. split; [rewrite Hi; simpl; rewrite <- app_assoc; reflexivity|].
      split; [exact Hno|].
      constructor; [split; reflexivity | exact Hc].
    + apply IH. exact Hn.
Qed.

Lemma ingest_queries_nodup al qs st n :
  a_analyze al = false -> NoDup (hashes st) -> (forall aq, In aq qs -> fetch_news aq <> None) ->
  exists st' new, ingest_queries sha256 fetch_news al qs st n
                    = Some (st', n + List.length new)%nat /\
    NoDup (hashes st') /\ items st' = (items st ++ new)%list /\
    notifications st' = notifications st /\
    Forall (fun r => s_campaignId r = a_campaignId al /\ s_status r = QUEUED) new.
Proof.
  intros Ha. revert st n. induction qs as [|aq rest IH]; intros st n Hn Hf; simpl.
  - exists st, []. rewrite app_nil_r, Nat.add_0_r. repeat split; auto.
  - destruct (fetch_news aq) as [its|] eqn:E; [|exfalso; exact (Hf aq (or_introl eq_refl) E)].
    destruct (ingest_items_nodup al its st n Ha Hn) as (st1 & new1 & Hr1 & Hn1 & Hi1 & Hno1 & Hc1).
    rewrite Hr1.
    destruct (IH st1 (n + List.length new1)%nat Hn1 (fun aq' H => Hf aq' (or_intror H)))
      as (st2 & new2 & Hr2 & Hn2 & Hi2 & Hno2 & Hc2).
    exists st2, (new1 ++ new2)%list. rewrite Hr2, length_app, Nat.add_assoc.
    split; [reflexivity|]. split; [exact Hn2|].
    split; [rewrite Hi2, Hi1, app_assoc; reflexivity|].
    split; [congruence|].
    apply Forall_app. auto.
Qed.

(** With [analyze] on, a successful [ingest_items] met no new hash: it
    changes nothing. *)
Lemma ingest_items_analyze al its st n st' n' :
  a_analyze al = true -> ingest_items sha256 al its st n = Some (st', n') -> st' = st /\ n' = n.
Proof.
  intros Ha. revert st n. induction its as [|it rest IH]; intros st n H; simpl in H.
  - injection H as -> ->. split; reflexivity.
  - destruct (filter (fun r => String.eqb (s_hash r) (sha256 (f_link it))) (items st))
      as [|r0 [|r1 l]]; [| |discriminate].
    + unfold item_status_of in H. rewrite Ha in H. discriminate.
    + exact (IH st n H).
Qed.

Lemma ingest_queries_analyze al qs st n st' n' :
  a_analyze al = true -> ingest_queries sha256 fetch_news al qs st n = Some (st', n') ->
  st' = st /\ n' = n.
Proof.
  intros Ha. revert st n. induction qs as [|aq rest IH]; intros st n H; simpl in H.
  - injection H as -> ->. split; reflexivity.
  - destruct (fetch_news aq) as [its|]; [|discriminate].
    destruct (ingest_items sha256 al its st n) as [[st1 n1]|] eqn:E1; [|discriminate].
    apply (ingest_items_analyze al its st n st1 n1 Ha) in E1 as [-> ->]. exact (IH st n H).
Qed.

(** With [analyze] on, an item whose hash is not stored makes
    [ingest_items] raise. *)
Lemma ingest_items_analyze_new al its st n it :
  a_analyze al = true -> In it its -> ~ In (sha256 (f_link it)) (hashes st) ->
  ingest_items sha256 al its st n = None.
Proof.
  intros Ha. induction its as [|it' rest IH]; intros Hin Hnew; [contradiction|]. simpl.
  destruct (filter (fun r => String.eqb (s_hash r) (sha256 (f_link it'))) (items st))
    as [|r0 [|r1 l]] eqn:Ef.
  - unfold item_status_of. rewrite Ha. reflexivity.
  - destruct Hin as [<-|Hin]; [exfalso; exact (Hnew (filter_cons_in _ _ _ _ Ef)) | exact (IH Hin Hnew)].
  - reflexivity.
Qed.

(** The rows of a hash never disappear and a hash with one row keeps one
    row through [ingest_items]; every item it processes leaves one row of
    its hash. *)
Lemma hcount_insert st r h n :
  hcount (mk_store (items st ++ [r])%list n) h =
  (hcount st h + if String.eqb (s_hash r) h then 1 else 0)%nat.
Proof.
  unfold hcount. simpl. rewrite filter_app, length_app. simpl.
  destruct (String.eqb (s_hash r) h); reflexivity.
Qed.

Lemma ingest_items_ones al its st n st' n' :
  ingest_items sha256 al its st n = Some (st', n') ->
  (forall h, hcount st h = 1%nat -> hcount st' h = 1%nat) /\
  (forall it, In it its -> hcount st' (sha256 (f_link it)) = 1%nat).
Proof.
  revert st n. induction its as [|it rest IH]; intros st n H; simpl in H.
  - injection H as -> ->. split; [auto | intros it []].
  - destruct (filter (fun r => String.eqb (s_hash r) (sha256 (f_link it))) (items st))
      as [|r0 [|r1 l]] eqn:Ef; [| |discriminate].
    + destruct (item_status_of al) as [status|]; [|discriminate].
      apply IH in H as [H1 H2]. split.
      * intros h Hh. apply H1. rewrite hcount_insert. simpl.
        destruct (String.eqb_spec (sha256 (f_link it)) h); [|lia].
        subst. unfold hcount in Hh. rewrite Ef in Hh. discriminate.
      * intros it' [<-|Hin]; [|exact (H2 it' Hin)]. apply H1. rewrite hcount_insert. simpl.
        rewrite String.eqb_refl. unfold hcount. rewrite Ef. reflexivity.
    + apply IH in H as [H1 H2]. split; [exact H1|].
      intros it' [<-|Hin]; [|exact (H2 it' Hin)]. apply H1. unfold hcount. rewrite Ef. reflexivity.
Qed.

Lemma ingest_items_rerun al its st n :
  (forall it, In it its -> hcount st (sha256 (f_link it)) = 1%nat) ->
  ingest_items sha256 al its st n = Some (st, n).
Proof.
  revert n. induction its as [|it rest IH]; intros n H; simpl; [reflexivity|].
  pose proof (H it (or_introl eq_refl)) as H1. unfold hcount in H1.
  destruct (filter (fun r => String.eqb (s_hash r) (sha256 (f_link it))) (items st))
    as [|r0 [|r1 l]]; simpl in H1; try discriminate.
  apply IH. intros it' Hin. apply H. right. exact Hin.
Qed.

Lemma ingest_queries_ones al qs st n st' n' :
  ingest_queries sha256 fetch_news al qs st n = Some (st', n') ->
  (forall h, hcount st h = 1%nat -> hcount st' h = 1%nat) /\
  (forall aq, In aq qs -> exists its, fetch_news aq = Some its /\
     forall it, In it its -> hcount st' (sha256 (f_link it)) = 1%nat).
Proof.
  revert st n. induction qs as [|aq rest IH]; intros st n H; simpl in H.
  - injection H as -> ->. split; [auto | intros aq []].
  - destruct (fetch_news aq) as [its|] eqn:E; [|discriminate].
    destruct (ingest_items sha256 al its st n) as [[st1 n1]|] eqn:E1; [|discriminate].
    apply ingest_items_ones in E1 as [A1 A2]. apply IH in H as [B1 B2]. split; [auto|].
    intros aq' [<-|Hin]; [|exact (B2 aq' Hin)]. exists its. split; [exact E|]. auto.
Qed.

Lemma ingest_queries_rerun al qs st n :
  (forall aq, In aq qs -> exists its, fetch_news aq = Some its /\
     forall it, In it its -> hcount st (sha256 (f_link it)) = 1%nat) ->
  ingest_queries sha256 fetch_news al qs st n = Some (st, n).
Proof.
  revert n. induction qs as [|aq rest IH]; intros n H; simpl; [reflexivity|].
  destruct (H aq (or_introl eq_refl)) as (its & E & Hits). rewrite E.
  rewrite (ingest_items_rerun al its st n Hits). apply IH. intros aq' Hin. apply H. right. exact Hin.
Qed.
End Props.

End AlertProps.

Section RunAlertProps.
Import NewsFetcher Alerts AlertProps.
Variable sha256 : string -> string.
Variable fetch_news : alert_query -> option (list fetched_item).

(** X12: for an alert with [analyze] off, on a table whose item hashes
    are distinct, [run_alert] fails only when a fetch of one of its
    queries raises; otherwise it only appends rows, all for the alert's
    campaign with status [QUEUED], keeps the hashes distinct, and (when
    the alert has queries) records one notification whose [itemsCount] is
    the number of rows it added. *)
Theorem run_alert_keeps_hashes_distinct (al : alert) (qs : list alert_query) (st : store) :
  a_analyze al = false -> NoDup (hashes st) -> (forall aq, In aq qs -> fetch_news aq <> None) ->
  exists st' new, run_alert sha256 fetch_news al qs st = Some st' /\
    NoDup (hashes st') /\ items st' = (items st ++ new)%list /\
    Forall (fun r => s_campaignId r = a_campaignId al /\ s_status r = QUEUED) new /\
    notifications st' = (notifications st ++
      match qs with [] => [] | _ :: _ => [(a_id al, List.length new)] end)%list.
Proof.
  intros Ha Hn Hf. unfold run_alert. destruct qs as [|aq rest].
  - exists st, []. rewrite !app_nil_r. repeat split; auto.
  - destruct (ingest_queries_nodup sha256 fetch_news al (aq :: rest) st 0 Ha Hn Hf)
      as (st' & new & Hr & Hn' & Hi & Hno & Hc).
    rewrite Hr. eexists _, new. split; [reflexivity|]. simpl. rewrite Hno.
    repeat split; auto.
Qed.

(** X13: running an alert a second time, with its queries returning the
    same items, adds no row: the second run records a notification with
    [itemsCount = 0] (none when the alert has no queries). *)
Theorem run_alert_rerun_adds_nothing (al : alert) (qs : list alert_query) (st st1 : store) :
  run_alert sha256 fetch_news al qs st = Some st1 ->
  run_alert sha256 fetch_news al qs st1 =
  Some (match qs with
        | [] => st1
        | _ :: _ => mk_store (items st1) (notifications st1 ++ [(a_id al, 0%nat)])%list
        end).
Proof.
  unfold run_alert. destruct qs as [|aq rest]; [intros H; injection H as <-; reflexivity|].
  destruct (ingest_queries sha256 fetch_news al (aq :: rest) st 0) as [[st2 n]|] eqn:E;
    [|discriminate].
  intros H. injection H as <-.
  apply ingest_queries_ones in E as [_ E].
  rewrite (ingest_queries_rerun sha256 fetch_news al (aq :: rest)
             (mk_store (items st2) (notifications st2 ++ [(a_id al, n)])%list) 0).
  - reflexivity.
  - intros aq' Hin. destruct (E aq' Hin) as (its & Hits & Hc). exists its. split; [exact Hits|].
    intros it Hit. rewrite <- (Hc it Hit). reflexivity.
Qed.

End RunAlertProps.

Lemma run_alert_keeps_hashes_distinct_witness :
  let aq := Alerts.mk_aq "alcalde" 5 3 in
  let fetch := fun (_ : Alerts.alert_query) =>
    Some [NewsFetcher.mk_fetched "t" "https://x.com/1" None None ""] in
  Alerts.a_analyze (Alerts.mk_alert "a1" "c1" false) = false /\
  NoDup (AlertProps.hashes (Alerts.mk_store [] [])) /\
  (forall q, In q [aq] -> fetch q <> None) /\
  exists st' (new : list Alerts.stored),
    Alerts.run_alert (fun s => s) fetch (Alerts.mk_alert "a1" "c1" false) [aq]
      (Alerts.mk_store [] []) = Some st' /\
    Alerts.items st' = (Alerts.items (Alerts.mk_store [] []) ++ new)%list.
Proof.
  cbv zeta. split; [reflexivity|]. split; [constructor|]. split; [intros q _; discriminate|].
  destruct (run_alert_keeps_hashes_distinct (fun s => s)
    (fun _ => Some [NewsFetcher.mk_fetched "t" "https://x.com/1" None None ""])
    (Alerts.mk_alert "a1" "c1" false) [Alerts.mk_aq "alcalde" 5 3] (Alerts.mk_store [] []))
    as (st' & new & Hr & _ & Hi & _).
  - reflexivity.
  - constructor.
  - intros q _. discriminate.
  - exists st', new. split; [exact Hr | exact Hi].
Defined.

Lemma run_alert_rerun_adds_nothing_witness :
  let fetch := fun (_ : Alerts.alert_query) =>
    Some [NewsFetcher.mk_fetched "t" "https://x.com/1" None None ""] in
  let al := Alerts.mk_alert "a1" "c1" false in
  let st1 := Alerts.mk_store
    [Alerts.mk_stored "c1" "https://x.com/1" "t" "" None Alerts.QUEUED "https://x.com/1"]
    [("a1", 1%nat)] in
  Alerts.run_alert (fun s => s) fetch al [Alerts.mk_aq "alcalde" 5 3]
    (Alerts.mk_store [] []) = Some st1 /\
  Alerts.run_alert (fun s => s) fetch al [Alerts.mk_aq "alcalde" 5 3] st1 =
    Some (Alerts.mk_store (Alerts.items st1) (Alerts.notifications st1 ++ [("a1", 0%nat)])%list).
Proof.
  cbv zeta. split; [vm_compute; reflexivity|].
  apply (run_alert_rerun_adds_nothing (fun s => s)
    (fun _ => Some [NewsFetcher.mk_fetched "t" "https://x.com/1" None None ""])
    (Alerts.mk_alert "a1" "c1" false) [Alerts.mk_aq "alcalde" 5 3] (Alerts.mk_store [] [])).
  vm_compute. reflexivity.
Defined.


(* ------------------------------------------------------------------ *)
(** ** Prefixes, slices and de-duplication by key *)

Module ListProps.
Import Py NewsFetcher.

Lemma py_take_firstn {A} n (l : list A) : exists m, py_take n l = firstn m l.
Proof. unfold py_take. destruct (0 <=? n)%Z; eexists; reflexivity. Qed.

Lemma nodup_map_firstn {A B} (f : A -> B) m l : NoDup (map f l) -> NoDup (map f (firstn m l)).
Proof.
  intros H. rewrite <- (firstn_skipn m l), map_app in H. exact (NoDup_app_remove_r _ _ H).
Qed.

Lemma in_py_take {A} n (l : list A) x : In x (py_take n l) -> In x l.
Proof.
  destruct (py_take_firstn n l) as [m ->]. apply CollectProps.in_firstn_in.
Qed.

Lemma nodup_map_py_take {A B} (f : A -> B) n l : NoDup (map f l) -> NoDup (map f (py_take n l)).
Proof. destruct (py_take_firstn n l) as [m ->]. apply nodup_map_firstn. Qed.

Lemma py_take_length {A} n (l : list A) :
  (0 <= n)%Z -> List.length (py_take n l) = Nat.min (Z.to_nat n) (List.length l).
Proof.
  intros H. unfold py_take. apply Z.leb_le in H. rewrite H. apply length_firstn.
Qed.

Lemma lower_empty s : is_empty (lower s) = is_empty s.
Proof. destruct s; reflexivity. Qed.

(** [_dedupe] of [news_fetcher] run on its own output changes nothing. *)
Lemma dedupe_from_idem seen l : dedupe_from seen (dedupe_from seen l) = dedupe_from seen l.
Proof.
  revert seen. induction l as [|x l IH]; intros seen; simpl; [reflexivity|].
  destruct (negb (is_empty (lower (strip (or_empty (url x)))))
            && negb (existsb (String.eqb (lower (strip (or_empty (url x))))) seen)) eqn:E.
  - simpl. rewrite E. f_equal. apply IH.
  - apply IH.
Qed.

Lemma ia_dedupe_from_idem seen l :
  IngestAuto.dedupe_from seen (IngestAuto.dedupe_from seen l) = IngestAuto.dedupe_from seen l.
Proof.
  revert seen. induction l as [|x l IH]; intros seen; simpl; [reflexivity|].
  destruct (negb (is_empty (strip (or_empty (IngestAuto.c_url x))))
            && negb (existsb (String.eqb (strip (or_empty (IngestAuto.c_url x)))) seen)) eqn:E.
  - simpl. rewrite E. f_equal. apply IH.
  - apply IH.
Qed.

Definition ia_key (c : IngestAuto.cand) : string := strip (or_empty (IngestAuto.c_url c)).

Lemma ia_dedupe_from_props seen l :
  NoDup (map ia_key (IngestAuto.dedupe_from seen l)) /\
  (forall c, In c (IngestAuto.dedupe_from seen l) -> In c l /\ ~ In (ia_key c) seen).
Proof.
  revert seen. induction l as [|x l IH]; intros seen; simpl; [split; [constructor | intros _ []]|].
  fold (ia_key x).
  destruct (negb (is_empty (ia_key x)) && negb (existsb (String.eqb (ia_key x)) seen)) eqn:E.
  - apply andb_true_iff in E as [_ E]. apply negb_true_iff in E.
    destruct (IH (ia_key x :: seen)) as [Hn Hi]. split.
    + simpl. constructor; [|exact Hn]. intros Hin. apply in_map_iff in Hin as (c & Hc & Hin).
      apply Hi in Hin as [_ Hs]. apply Hs. left. symmetry. exact Hc.
    + intros c [<-|Hin].
      * split; [left; reflexivity|]. intros Hs. rewrite <- QueryBuilderProps.existsb_eqb_iff in Hs.
        congruence.
      * apply Hi in Hin as [Hin Hs]. split; [right; exact Hin|]. intros Hs'. apply Hs. right. exact Hs'.
  - destruct (IH seen) as [Hn Hi]. split; [exact Hn|].
    intros c Hin. apply Hi in Hin as [Hin Hs]. split; [right; exact Hin | exact Hs].
Qed.

End ListProps.

(* ------------------------------------------------------------------ *)
(** ** [expand_actor] *)

Module ExpandProps.
Import Py Cascade.

Lemma dedupe_lower_props seen l :
  NoDup (map lower (dedupe_lower seen l)) /\
  (List.length (dedupe_lower seen l) <= List.length l)%nat /\
  (forall a, In a (dedupe_lower seen l) -> In a l /\ is_empty (lower a) = false /\ ~ In (lower a) seen).
Proof.
  revert seen. induction l as [|x l IH]; intros seen; simpl.
  - split; [constructor|]. split; [lia | intros _ []].
  - destruct (negb (is_empty (lower x)) && negb (existsb (String.eqb (lower x)) seen)) eqn:E.
    + apply andb_true_iff in E as [E1 E]. apply negb_true_iff in E, E1.
      destruct (IH (lower x :: seen)) as (Hn & Hl & Hi). split; [|split].
      * simpl. constructor; [|exact Hn]. intros Hin. apply in_map_iff in Hin as (a & Ha & Hin).
        apply Hi in Hin as (_ & _ & Hs). apply Hs. left. symmetry. exact Ha.
      * simpl. lia.
      * intros a [<-|Hin].
        -- split; [left; reflexivity|]. split; [exact E1|]. intros Hs.
           rewrite <- QueryBuilderProps.existsb_eqb_iff in Hs. congruence.
        -- apply Hi in Hin as (Hin & He & Hs). split; [right; exact Hin|]. split; [exact He|].
           intros Hs'. apply Hs. right. exact Hs'.
    + destruct (IH seen) as (Hn & Hl & Hi). split; [exact Hn|]. split; [lia|].
      intros a Hin. apply Hi in Hin as (Hin & He & Hs). split; [right; exact Hin|]. auto.
Qed.

End ExpandProps.

Section ExpandActorProps.
Import Py Cascade.
Variable normalize : string -> string.

(** X5: [expand_actor] returns at most two aliases, the stripped actor
    and its accent-free form, with distinct lower-cased forms and none
    empty; when the stripped actor is not empty it comes first. *)
Theorem expand_actor_aliases (actor : string) :
  let out := expand_actor normalize actor in
  (List.length out <= 2)%nat /\ NoDup (map lower out) /\
  (forall a, In a out -> a <> EmptyString /\ (a = strip actor \/ a = normalize actor)) /\
  (strip actor <> EmptyString -> hd_error out = Some (strip actor)).
Proof.
  cbv zeta. unfold expand_actor.
  set (base := if is_empty actor then [] else [strip actor]).
  set (full := if negb (is_empty (normalize actor)) &&
                  negb (String.eqb (lower (normalize actor)) (lower actor))
               then (base ++ [normalize actor])%list else base).
  assert (Hfull : (List.length full <= 2)%nat /\
                  forall a, In a full -> a = strip actor \/ a = normalize actor).
  { unfold full, base. destruct (is_empty actor), (_ && _); simpl; split; try lia;
      intros a Ha; simpl in Ha; intuition. }
  destruct (ExpandProps.dedupe_lower_props [] full) as (Hn & Hl & Hi).
  split; [lia|]. split; [exact Hn|]. split.
  - intros a Hin. apply Hi in Hin as (Hin & He & _). split.
    + intros ->. discriminate.
    + apply (proj2 Hfull). exact Hin.
  - intros Hs. assert (Ha : is_empty actor = false).
    { destruct actor; [exfalso; apply Hs; reflexivity | reflexivity]. }
    assert (Hf : exists r, full = strip actor :: r).
    { unfold full, base. rewrite Ha. destruct (_ && _); eexists; reflexivity. }
    destruct Hf as [r ->]. simpl.
    assert (He : is_empty (lower (strip actor)) = false).
    { rewrite ListProps.lower_empty. destruct (strip actor); [contradiction | reflexivity]. }
    rewrite He. reflexivity.
Qed.
End ExpandActorProps.

(* ------------------------------------------------------------------ *)
(** ** The candidates returned by the cascade *)

Section CascadeOutputProps.
Import Py NewsFetcher Cascade.
Variable normalize : string -> string.
Variable fetch_news : string -> Z -> Z -> option (list fetched_item).
Variable sites_env : string.

(** [it] is [to_dict] of an article in the list that [fetch_news] returned
    for some query and count, with the window [d]. *)
Definition from_fetch (d : Z) (it : item) : Prop :=
  exists q n its f, fetch_news q n d = Some its /\ In f its /\ it = to_dict f.

Lemma gn_fetch_from_fetch queries d it :
  In it (_gn_fetch fetch_news queries d) -> from_fetch d it.
Proof.
  unfold _gn_fetch. rewrite in_flat_map. intros (q & _ & Hin).
  destruct (fetch_news q 35 d) as [its|] eqn:E; [|contradiction].
  apply in_map_iff in Hin as (f & <- & Hf). exists q, 35%Z, its, f. split; [exact E|]. split; [exact Hf | reflexivity].
Qed.

Lemma site_backfill_from_fetch aliases cb d it :
  In it (_site_backfill fetch_news sites_env aliases cb d) -> from_fetch d it.
Proof.
  unfold _site_backfill. rewrite in_flat_map. intros (a & _ & Hin).
  rewrite in_flat_map in Hin. destruct Hin as (s & _ & Hin).
  destruct (fetch_news _ 10 d) as [its|] eqn:E; [|contradiction].
  apply in_map_iff in Hin as (f & <- & Hf). do 4 eexists. split; [exact E|]. split; [exact Hf | reflexivity].
Qed.

Lemma rank_items_perm aliases cb size l :
  exists l', Permutation l' l /\ rank_items aliases cb size l = py_take size l'.
Proof.
  unfold rank_items.
  set (scored := map (fun it => (Rank.score_item it aliases (Some (map Some cb)), it)) l).
  exists (map snd (sort_desc fst scored)). split; [|reflexivity].
  destruct (SortProps.sort_desc_spec fst scored) as (_ & Hp & _).
  transitivity (map snd scored); [apply Permutation_map; exact Hp|].
  unfold scored. rewrite map_map, map_id. reflexivity.
Qed.

Lemma search_relaxed_out q size days_back cks :
  exists aliases cb items3,
    snd (search_relaxed normalize fetch_news sites_env q size days_back cks)
      = rank_items aliases cb size (_dedupe items3) /\
    forall it, In it items3 -> from_fetch days_back it.
Proof.
  unfold search_relaxed. cbv zeta.
  match goal with |- context [if count_lt ?x size then _ else _] =>
    destruct (count_lt x size) end; cbn beta iota;
  match goal with |- context [if count_lt ?x size then _ else _] =>
    destruct (count_lt x size) end; cbn beta iota;
  (eexists _, _, _; split; [reflexivity|]);
  intros it Hin; repeat rewrite in_app_iff in Hin;
  repeat match type of Hin with
         | _ \/ _ => destruct Hin as [Hin|Hin]
         end;
  first [ exact (gn_fetch_from_fetch _ _ _ Hin) | exact (site_backfill_from_fetch _ _ _ _ Hin) ].
Qed.

(** X6: the cascade returns at most [size] candidates (for [size >= 0]),
    each [to_dict] of an article in a list that [fetch_news] returned
    with the caller's [days_back] (so without a [snippet]), with
    non-empty and pairwise distinct keys [(url or '').strip().lower()]. *)
Theorem cascade_output_distinct_urls q size days_back cks :
  let out := snd (search_relaxed normalize fetch_news sites_env q size days_back cks) in
  NoDup (map DedupeProps.key out) /\
  (forall it, In it out -> is_empty (DedupeProps.key it) = false /\ from_fetch days_back it) /\
  ((0 <= size)%Z -> (List.length out <= Z.to_nat size)%nat).
Proof.
  cbv zeta. destruct (search_relaxed_out q size days_back cks) as (aliases & cb & items3 & -> & Hf).
  destruct (rank_items_perm aliases cb size (_dedupe items3)) as (l' & Hp & ->).
  split; [|split].
  - apply ListProps.nodup_map_py_take. apply (Permutation_NoDup (Permutation_map _ (Permutation_sym Hp))).
    apply DedupeProps.dedupe_from_nodup.
  - intros it Hin. apply ListProps.in_py_take in Hin.
    apply (Permutation_in _ Hp) in Hin. split; [exact (DedupeProps.dedupe_from_nonempty _ _ _ Hin)|].
    apply Hf. unfold _dedupe in Hin. clear Hf Hp.
    revert Hin. generalize (@nil string). induction items3 as [|x l IH]; intros seen Hin; simpl in Hin;
      [contradiction|].
    destruct (_ && _); [destruct Hin as [<-|Hin]; [left; reflexivity|] |]; right; eapply IH; exact Hin.
  - intros Hs. rewrite ListProps.py_take_length by exact Hs. lia.
Qed.
End CascadeOutputProps.

(* ------------------------------------------------------------------ *)
(** ** The scores of the cascade's candidates *)

Section ScoreFetchedProps.
Import Py NewsFetcher Rank RankProps.

Lemma contains_empty_r sub : is_empty sub = false -> contains sub EmptyString = false.
Proof. destruct sub; [discriminate | reflexivity]. Qed.

Lemma title_points_count ttl (l : list string) :
  sum_Z (map (alias_points ttl EmptyString) l) =
  (5 * Z.of_nat (List.length (filter (fun a => negb (is_empty (lower a)) && contains (lower a) ttl) l)))%Z.
Proof.
  induction l as [|a l IH]; [reflexivity|]. cbn [map filter]. unfold sum_Z; cbn [fold_right].
  fold (sum_Z (map (alias_points ttl EmptyString) l)). rewrite IH. unfold alias_points.
  destruct (is_empty (lower a)) eqn:E; cbn [negb andb]; [lia|].
  destruct (contains (lower a) ttl); cbn [length].
  - rewrite Nat2Z.inj_succ. lia.
  - rewrite (contains_empty_r _ E). lia.
Qed.

Lemma title_city_points_count ttl (l : list string) :
  sum_Z (map (city_points ttl EmptyString) (map Some l)) =
  (2 * Z.of_nat (List.length (filter (fun c => negb (is_empty (lower c)) && contains (lower c) ttl) l)))%Z.
Proof.
  induction l as [|c l IH]; [reflexivity|]. cbn [map filter]. unfold sum_Z; cbn [fold_right].
  fold (sum_Z (map (city_points ttl EmptyString) (map Some l))). rewrite IH. unfold city_points.
  cbn [or_empty]. destruct (is_empty (lower c)) eqn:E; cbn [negb andb]; [lia|].
  destruct (contains (lower c) ttl); cbn [length].
  - rewrite Nat2Z.inj_succ. lia.
  - rewrite (contains_empty_r _ E). lia.
Qed.

(** X7: an item built by the cascade from a fetched article has no
    [snippet], so [score_item] gives it 5 points per alias and 2 per city
    keyword found in its title, and nothing else: the summary never counts
    and the 3- and 1-point snippet rules never apply. *)
Theorem score_fetched_title_only (f : fetched_item) (aliases cities : list string) :
  score_item (to_dict f) aliases (Some (map Some cities)) =
  (5 * Z.of_nat (List.length (filter (fun a => negb (is_empty (lower a))
                                             && contains (lower a) (lower (f_title f))) aliases)) +
   2 * Z.of_nat (List.length (filter (fun c => negb (is_empty (lower c))
                                             && contains (lower c) (lower (f_title f))) cities)))%Z.
Proof.
  unfold score_item. cbn [to_dict title snippet or_empty lower]. rewrite city_loop_sum, alias_loop_sum.
  rewrite title_points_count, title_city_points_count. lia.
Qed.
End ScoreFetchedProps.

(* ------------------------------------------------------------------ *)
(** ** The two [_dedupe] functions *)

(** X8: both [_dedupe] functions (the cascade's, keyed by the stripped
    lower-cased url, and [ingest_auto]'s, keyed by the stripped url) are
    idempotent: de-duplicating their output again changes nothing. *)
Theorem dedupes_idempotent (l : list NewsFetcher.item) (l' : list IngestAuto.cand) :
  NewsFetcher._dedupe (NewsFetcher._dedupe l) = NewsFetcher._dedupe l /\
  IngestAuto._dedupe (IngestAuto._dedupe l') = IngestAuto._dedupe l'.
Proof. split; [apply ListProps.dedupe_from_idem | apply ListProps.ia_dedupe_from_idem]. Qed.

(* ------------------------------------------------------------------ *)
(** ** The rows written by [kickoff_campaign_ingest] *)

Section PersistRowsProps.
Import Py IngestAuto.

Lemma substring_0_length m s : (String.length (substring 0 m s) <= m)%nat.
Proof.
  revert s. induction m as [|m IH]; intros s; destruct s; simpl; try lia. specialize (IH s). lia.
Qed.

Lemma substring_0_nonempty m s : s <> EmptyString -> substring 0 (S m) s <> EmptyString.
Proof. destruct s; simpl; congruence. Qed.

Lemma normalize_props all c :
  In c (normalize all) ->
  exists t u, c_title c = Some t /\ c_url c = Some u /\ strip u = u /\ u <> EmptyString /\
    t <> EmptyString /\ (String.length t <= 512)%nat.
Proof.
  unfold normalize. rewrite in_flat_map. intros (x & _ & Hin).
  destruct (is_empty (strip (or_empty (c_url x))) || is_empty (strip (or_empty (c_title x)))) eqn:E;
    [contradiction|].
  apply orb_false_iff in E as [E1 E2]. destruct Hin as [<-|[]]. simpl.
  eexists _, _. split; [reflexivity|]. split; [reflexivity|].
  split; [apply StripProps.strip_idem|]. split; [intros H; rewrite H in E1; discriminate|].
  split.
  - apply substring_0_nonempty. intros H; rewrite H in E2; discriminate.
  - apply substring_0_length.
Qed.

(** X10: one run of [kickoff_campaign_ingest] appends one row per
    distinct stripped url among the first [size] de-duplicated candidates:
    the new rows have pairwise distinct, non-empty, stripped urls, a
    non-empty title of at most 512 characters, the campaign's id and a
    pending ([NULL]) status; for [size >= 0] there are
    [min(size, number of distinct urls)] of them. *)
Theorem kickoff_rows (cid : string) (size : Z) (all_items : list cand) (db : list row) :
  exists new, persist cid size all_items db = (db ++ new)%list /\
    NoDup (map r_url new) /\
    Forall (fun r => r_campaignId r = cid /\ r_status r = None /\ r_url r <> EmptyString /\
                     strip (r_url r) = r_url r /\ r_title r <> EmptyString /\
                     (String.length (r_title r) <= 512)%nat) new /\
    ((0 <= size)%Z ->
       List.length new = Nat.min (Z.to_nat size) (List.length (_dedupe (normalize all_items)))).
Proof.
  set (D := _dedupe (normalize all_items)).
  set (mk := fun it => mk_row cid (or_empty (c_title it)) (or_empty (c_url it)) (c_publishedAt it) None).
  exists (map mk (NewsFetcher.py_take size D)). split; [reflexivity|].
  destruct (ListProps.ia_dedupe_from_props [] (normalize all_items)) as [Hn Hi].
  fold (_dedupe (normalize all_items)) in Hn, Hi. fold D in Hn, Hi.
  assert (HD : forall c, In c (NewsFetcher.py_take size D) ->
            exists t u, c_title c = Some t /\ c_url c = Some u /\ strip u = u /\ u <> EmptyString /\
              t <> EmptyString /\ (String.length t <= 512)%nat).
  { intros c Hc. apply ListProps.in_py_take in Hc. apply Hi in Hc as [Hc _].
    exact (normalize_props _ _ Hc). }
  split; [|split].
  - rewrite map_map. unfold mk; simpl.
    assert (Hk : NoDup (map ListProps.ia_key (NewsFetcher.py_take size D)))
      by (apply ListProps.nodup_map_py_take; exact Hn).
    erewrite map_ext_in; [exact Hk|]. intros c Hc.
    destruct (HD c Hc) as (t & u & _ & Hu & Hs & _). unfold ListProps.ia_key. rewrite Hu. simpl.
    symmetry. exact Hs.
  - apply Forall_forall. intros r Hr. apply in_map_iff in Hr as (c & <- & Hc).
    destruct (HD c Hc) as (t & u & Ht & Hu & Hs & Hne & Hte & Hl). unfold mk. simpl.
    rewrite Ht, Hu. simpl. auto 7.
  - intros Hs. rewrite length_map. apply ListProps.py_take_length. exact Hs.
Qed.
End PersistRowsProps.

(* ------------------------------------------------------------------ *)
(** ** The checked insertion of [search_news_by_topic] *)

Section CheckedInsertProps.
Import Py IngestAuto PersistProps.

Definition step (cid : string) (db : list row) (it : cand) : list row :=
  if existsb (fun r => String.eqb (r_campaignId r) cid
                       && String.eqb (r_url r) (or_empty (c_url it))) db
  then db
  else (db ++ [mk_row cid (or_empty (c_title it)) (or_empty (c_url it)) (c_publishedAt it) None])%list.

Lemma rows_with_app db extra c u : rows_with (db ++ extra) c u = (rows_with db c u + rows_with extra c u)%nat.
Proof. unfold rows_with. rewrite filter_app, length_app. reflexivity. Qed.

Lemma present_rows_with cid db it :
  present cid db it = false <-> rows_with db cid (or_empty (c_url it)) = 0%nat.
Proof.
  unfold present, rows_with. induction db as [|r db IH]; simpl; [tauto|].
  destruct (String.eqb (r_campaignId r) cid && String.eqb (r_url r) (or_empty (c_url it))); simpl.
  - split; discriminate.
  - exact IH.
Qed.

Lemma present_rows_with_pos cid db it :
  present cid db it = true -> (1 <= rows_with db cid (or_empty (c_url it)))%nat.
Proof.
  intros H. destruct (rows_with db cid (or_empty (c_url it))) eqn:E; [|lia].
  apply present_rows_with in E. congruence.
Qed.

Lemma step_le1 cid db it :
  (forall c u, (rows_with db c u <= 1)%nat) -> forall c u, (rows_with (step cid db it) c u <= 1)%nat.
Proof.
  intros H c u. unfold step. fold (present cid db it).
  destruct (present cid db it) eqn:E; [apply H|].
  rewrite rows_with_app. unfold rows_with at 2. simpl. specialize (H c u).
  apply present_rows_with in E.
  destruct (String.eqb_spec cid c) as [<-|]; destruct (String.eqb_spec (or_empty (c_url it)) u) as [<-|];
    simpl; lia.
Qed.

Lemma fold_step_props cid items db :
  (forall c u, (rows_with db c u <= 1)%nat) ->
  (forall c u, (rows_with (fold_left (step cid) items db) c u <= 1)%nat) /\
  exists new, fold_left (step cid) items db = (db ++ new)%list.
Proof.
  revert db. induction items as [|it items IH]; intros db H; simpl.
  - split; [exact H|]. exists []. rewrite app_nil_r. reflexivity.
  - destruct (IH (step cid db it) (step_le1 cid db it H)) as [H1 (new & Hn)]. split; [exact H1|].
    assert (Hs : step cid db it = db \/
                 step cid db it = (db ++ [mk_row cid (or_empty (c_title it)) (or_empty (c_url it))
                                            (c_publishedAt it) None])%list)
      by (unfold step; destruct (existsb _ db); auto).
    destruct Hs as [Hs|Hs]; rewrite Hs in Hn |- *.
    + exists new. exact Hn.
    + exists (mk_row cid (or_empty (c_title it)) (or_empty (c_url it)) (c_publishedAt it) None :: new).
      rewrite Hn, <- app_assoc. reflexivity.
Qed.

(** X11: the checked insertion of [search_news_by_topic] keeps at most
    one row per (campaign, url) in a table that had at most one, keeps the
    existing rows, leaves exactly one row of the campaign for the url of
    every candidate, and a second run with the same candidates inserts
    nothing. *)
Theorem insert_checked_one_row_per_url (cid : string) (items : list cand) (db : list row) :
  (forall c u, (rows_with db c u <= 1)%nat) ->
  (forall c u, (rows_with (insert_checked cid items db) c u <= 1)%nat) /\
  (exists new, insert_checked cid items db = (db ++ new)%list) /\
  (forall it, In it items -> rows_with (insert_checked cid items db) cid (or_empty (c_url it)) = 1%nat) /\
  insert_checked cid items (insert_checked cid items db) = insert_checked cid items db.
Proof.
  intros H. destruct (fold_step_props cid items db H) as [H1 H2].
  assert (E : insert_checked cid items db = fold_left (step cid) items db) by reflexivity.
  split; [rewrite E; exact H1|]. split; [rewrite E; exact H2|]. split.
  - intros it Hin. pose proof (present_rows_with_pos _ _ _ (insert_checked_all_present cid items db it Hin)).
    specialize (H1 cid (or_empty (c_url it))). rewrite <- E in H1. lia.
  - apply insert_checked_idempotent.
Qed.
End CheckedInsertProps.

Lemma insert_checked_one_row_per_url_witness :
  let db := [IngestAuto.mk_row "c1" "t" "https://x.com/1" None None] in
  (forall c u, (IngestAuto.rows_with db c u <= 1)%nat) /\
  IngestAuto.insert_checked "c1"
    [IngestAuto.mk_cand (Some "t") (Some "https://x.com/1") None;
     IngestAuto.mk_cand (Some "u") (Some "https://x.com/2") None] db =
  (db ++ [IngestAuto.mk_row "c1" "u" "https://x.com/2" None None])%list /\
  (forall c u, (IngestAuto.rows_with (IngestAuto.insert_checked "c1"
    [IngestAuto.mk_cand (Some "t") (Some "https://x.com/1") None;
     IngestAuto.mk_cand (Some "u") (Some "https://x.com/2") None] db) c u <= 1)%nat).
Proof.
  cbv zeta.
  assert (H : forall c u, (IngestAuto.rows_with [IngestAuto.mk_row "c1" "t" "https://x.com/1" None None] c u
                           <= 1)%nat).
  { intros c u. unfold IngestAuto.rows_with. simpl.
    destruct (_ && _); simpl; lia. }
  split; [exact H|]. split; [vm_compute; reflexivity|].
  apply (insert_checked_one_row_per_url "c1"
    [IngestAuto.mk_cand (Some "t") (Some "https://x.com/1") None;
     IngestAuto.mk_cand (Some "u") (Some "https://x.com/2") None] _ H).
Defined.

(* ------------------------------------------------------------------ *)
(** ** [urlencode] read back by [urlparse] and [parse_qs] *)

Module UrlProps.
Import Py UrlEncode StripProps.
Local Open Scope list_scope.

(** The bytes [quote_plus] writes for one input byte. *)
Definition qenc (c : ascii) : list ascii :=
  if always_safe c then [c]
  else if Ascii.eqb c " " then ["+"%char]
  else ["%"%char; hex_digit (nat_of_ascii c / 16); hex_digit (nat_of_ascii c mod 16)].

Definition plus_sp (c : ascii) : ascii := if Ascii.eqb c "+" then " "%char else c.

(** [unquote] decodes the bytes of one input byte back to it. *)
Definition chk_dec (c : ascii) : bool :=
  match map plus_sp (qenc c) with
  | [d] => negb (Ascii.eqb d "%") && Ascii.eqb d c
  | [p; a; b] => Ascii.eqb p "%" &&
      match hex_val a, hex_val b with
      | Some x, Some y => Ascii.eqb (ascii_of_nat (16 * x + y)) c
      | _, _ => false
      end
  | _ => false
  end.

(** The bytes [quote_plus] writes are none of the delimiters [& = # ?] and
    none of the bytes [urlsplit] removes (tab, line feed, carriage
    return). *)
Definition okP (d : ascii) : bool :=
  negb (existsb (Ascii.eqb d) ["&"%char; "="%char; "#"%char; "?"%char; "009"%char; "010"%char; "013"%char]).

Definition okE (d : ascii) : bool :=
  negb (existsb (Ascii.eqb d) ["#"%char; "?"%char; "009"%char; "010"%char; "013"%char]).

Definition chk_ok (c : ascii) : bool := forallb okP (qenc c).

Lemma all_ascii (P : ascii -> bool) :
  (forall b0 b1 b2 b3 b4 b5 b6 b7, P (Ascii b0 b1 b2 b3 b4 b5 b6 b7) = true) -> forall c, P c = true.
Proof. intros H [b0 b1 b2 b3 b4 b5 b6 b7]. apply H. Qed.

Lemma chk_dec_all c : chk_dec c = true.
Proof.
  apply all_ascii. intros b0 b1 b2 b3 b4 b5 b6 b7.
  destruct b0, b1, b2, b3, b4, b5, b6, b7; vm_compute; reflexivity.
Qed.

Lemma chk_ok_all c : chk_ok c = true.
Proof.
  apply all_ascii. intros b0 b1 b2 b3 b4 b5 b6 b7.
  destruct b0, b1, b2, b3, b4, b5, b6, b7; vm_compute; reflexivity.
Qed.

Lemma L_quote_plus s : L (quote_plus s) = flat_map qenc (L s).
Proof.
  induction s as [|c s IH]; [reflexivity|]. unfold L in *.
  cbn [quote_plus list_ascii_of_string flat_map]. unfold qenc.
  destruct (always_safe c); [|destruct (Ascii.eqb c " ")]; cbn [list_ascii_of_string app];
    rewrite IH; reflexivity.
Qed.

Lemma L_unquote_plus s : L (UrlLib.unquote_plus s) = map plus_sp (L s).
Proof. unfold UrlLib.unquote_plus, L. rewrite list_ascii_of_string_of_list_ascii. reflexivity. Qed.

Lemma unquote_step c rest :
  unquote_bytes (map plus_sp (qenc c) ++ rest) = c :: unquote_bytes rest.
Proof.
  pose proof (chk_dec_all c) as H. unfold chk_dec in H.
  destruct (map plus_sp (qenc c)) as [|d [|a [|b [|x l]]]]; try discriminate.
  - apply andb_true_iff in H as [H1 H2]. apply negb_true_iff in H1.
    apply Ascii.eqb_eq in H2. subst d. simpl. rewrite H1. reflexivity.
  - apply andb_true_iff in H as [H1 H2]. apply Ascii.eqb_eq in H1. subst d.
    cbn [app unquote_bytes]. rewrite Ascii.eqb_refl.
    destruct (hex_val a) as [x|], (hex_val b) as [y|]; try discriminate.
    apply Ascii.eqb_eq in H2. cbv beta iota. rewrite H2. reflexivity.
Qed.

(** [unquote_plus] inverts [quote_plus]. *)
Lemma unquote_quote_plus s : unquote_plus_pct (quote_plus s) = s.
Proof.
  unfold unquote_plus_pct. fold (L (UrlLib.unquote_plus (quote_plus s))).
  rewrite L_unquote_plus, L_quote_plus.
  assert (H : forall l, unquote_bytes (map plus_sp (flat_map qenc l)) = l).
  { induction l as [|c l IH]; [reflexivity|]. simpl. rewrite map_app, unquote_step, IH. reflexivity. }
  rewrite H. apply string_of_list_ascii_of_string.
Qed.

Lemma quote_plus_okP s : Forall (fun d => okP d = true) (L (quote_plus s)).
Proof.
  rewrite L_quote_plus. apply Forall_forall. intros d Hd. apply in_flat_map in Hd as (c & _ & Hd).
  pose proof (chk_ok_all c) as H. unfold chk_ok in H. rewrite forallb_forall in H. auto.
Qed.

Lemma quote_plus_empty s : is_empty (quote_plus s) = is_empty s.
Proof.
  destruct s as [|c s]; [reflexivity|]. simpl.
  destruct (always_safe c); [reflexivity|]. destruct (Ascii.eqb c " "); reflexivity.
Qed.

Lemma notin_of_ok (f : ascii -> bool) c l :
  f c = false -> Forall (fun d => f d = true) l -> ~ In c l.
Proof. intros Hc HF Hin. rewrite Forall_forall in HF. specialize (HF c Hin). congruence. Qed.

Lemma split_once_notin c s : ~ In c (L s) -> split_once c s = None.
Proof.
  induction s as [|d s IH]; intros H; [reflexivity|]. simpl in H |- *.
  destruct (Ascii.eqb_spec c d); [exfalso; apply H; left; congruence|].
  rewrite IH; [reflexivity|]. intros Hin. apply H. right. exact Hin.
Qed.

Lemma split_once_app c p s :
  ~ In c (L p) ->
  split_once c (p ++ s)%string = match split_once c s with
                                 | Some (b, a) => Some (p ++ b, a)%string
                                 | None => None
                                 end.
Proof.
  induction p as [|d p IH]; intros H; simpl.
  - destruct (split_once c s) as [[b a]|]; reflexivity.
  - destruct (Ascii.eqb_spec c d); [exfalso; apply H; left; congruence|].
    rewrite IH; [|intros Hin; apply H; right; exact Hin].
    destruct (split_once c s) as [[b a]|]; reflexivity.
Qed.

Lemma split_all_app c x s cur :
  ~ In c (L x) -> split_all_aux c (x ++ s)%string cur = split_all_aux c s (rev_str x cur).
Proof.
  revert cur. induction x as [|d x IH]; intros cur H; [reflexivity|]. simpl.
  destruct (Ascii.eqb_spec c d); [exfalso; apply H; left; congruence|].
  apply IH. intros Hin. apply H. right. exact Hin.
Qed.

Lemma rev_str_twice x : rev_str (rev_str x EmptyString) EmptyString = x.
Proof.
  apply L_inj. rewrite !L_rev_str. simpl. rewrite !app_nil_r. apply rev_involutive.
Qed.

Lemma append_nil_r s : (s ++ EmptyString)%string = s.
Proof. induction s as [|c s IH]; simpl; [reflexivity | rewrite IH; reflexivity]. Qed.

Lemma split_all_join (c : ascii) xs :
  xs <> [] -> Forall (fun x => ~ In c (L x)) xs ->
  split_all c (Cascade.join (String c EmptyString) xs) = xs.
Proof.
  unfold split_all. induction xs as [|x [|y r] IH]; intros Hne HF; [congruence| |].
  - inversion HF as [|? ? Hx _]; subst. simpl.
    rewrite <- (append_nil_r x) at 1. rewrite split_all_app by exact Hx. simpl.
    rewrite rev_str_twice. reflexivity.
  - inversion HF as [|? ? Hx Hr]; subst.
    change (Cascade.join (String c EmptyString) (x :: y :: r))
      with (x ++ String c EmptyString ++ Cascade.join (String c EmptyString) (y :: r))%string.
    rewrite split_all_app by exact Hx. simpl. rewrite Ascii.eqb_refl, rev_str_twice.
    f_equal. apply IH; [congruence | exact Hr].
Qed.

Lemma Forall_L_app (P : ascii -> Prop) s t :
  Forall P (L s) -> Forall P (L t) -> Forall P (L (s ++ t)%string).
Proof. intros H1 H2. rewrite L_app. apply Forall_app. split; assumption. Qed.

(** The pieces [quote_plus(k) + '=' + quote_plus(v)] of [urlencode]. *)
Definition piece (kv : string * string) : string := quote_plus (fst kv) ++ "=" ++ quote_plus (snd kv).

Lemma okP_okE d : okP d = true -> okE d = true.
Proof.
  unfold okP, okE. simpl. intros H. repeat rewrite negb_orb in *.
  repeat (apply andb_true_iff in H as [? H]). repeat (apply andb_true_iff; split); assumption.
Qed.

Lemma piece_okE kv : Forall (fun d => okE d = true) (L (piece kv)).
Proof.
  unfold piece. apply Forall_L_app; [|apply Forall_L_app; [repeat constructor|]];
    eapply Forall_impl; try apply quote_plus_okP; exact okP_okE.
Qed.

Lemma join_okE xs :
  Forall (fun x => Forall (fun d => okE d = true) (L x)) xs ->
  Forall (fun d => okE d = true) (L (Cascade.join "&" xs)).
Proof.
  induction xs as [|x [|y r] IH]; intros HF; [constructor| |].
  - inversion HF; assumption.
  - inversion HF as [|? ? Hx Hr]; subst.
    change (Cascade.join "&" (x :: y :: r)) with (x ++ "&" ++ Cascade.join "&" (y :: r))%string.
    apply Forall_L_app; [exact Hx|]. apply Forall_L_app; [repeat constructor | apply IH; exact Hr].
Qed.

Lemma urlencode_okE params : Forall (fun d => okE d = true) (L (urlencode params)).
Proof.
  unfold urlencode. apply join_okE. apply Forall_forall. intros x Hx.
  apply in_map_iff in Hx as (kv & <- & _). apply piece_okE.
Qed.

Lemma substring_0_ge m s : (String.length s <= m)%nat -> substring 0 m s = s.
Proof.
  revert m. induction s as [|c s IH]; intros m H; destruct m; simpl in *; try reflexivity; [lia|].
  rewrite IH by lia. reflexivity.
Qed.

Lemma string_of_list_L_app s t :
  string_of_list_ascii (L s ++ L t) = (s ++ t)%string.
Proof. rewrite <- L_app. apply string_of_list_ascii_of_string. Qed.

(** [urlparse] of a Google News search URL: the netloc and the query
    string, for a query string without [#], [?] and the bytes [urlsplit]
    removes. *)
Lemma urlparse_gn E :
  Forall (fun d => okE d = true) (L E) ->
  UrlLib.urlparse ("https://news.google.com/rss/search?" ++ E) = Some ("news.google.com", E).
Proof.
  intros HE.
  assert (Hr : UrlLib.remove_unsafe ("https://news.google.com/rss/search?" ++ E)
               = ("https://news.google.com/rss/search?" ++ E)%string).
  { unfold UrlLib.remove_unsafe. fold (L ("https://news.google.com/rss/search?" ++ E)).
    rewrite L_app, filter_app.
    rewrite (forallb_filter_id _ (L "https://news.google.com/rss/search?")) by reflexivity.
    rewrite (forallb_filter_id _ (L E)).
    - apply string_of_list_L_app.
    - apply forallb_forall. intros d Hd. rewrite Forall_forall in HE. specialize (HE d Hd).
      unfold okE in HE. simpl in HE. repeat rewrite negb_orb in HE.
      repeat (apply andb_true_iff in HE as [? HE]). simpl.
      rewrite !negb_orb. repeat (apply andb_true_iff; split); assumption. }
  assert (Hh : ~ In "#"%char (L E)) by (apply (notin_of_ok okE); [reflexivity | exact HE]).
  assert (Hq : ~ In "?"%char (L E)) by (apply (notin_of_ok okE); [reflexivity | exact HE]).
  set (R := ("/rss/search?" ++ E)%string).
  set (N := ("news.google.com" ++ R)%string).
  assert (H1 : UrlLib.lstrip_c0 ("https://news.google.com/rss/search?" ++ E)
               = ("https://news.google.com/rss/search?" ++ E)%string) by reflexivity.
  assert (H2 : UrlLib.strip_scheme ("https://news.google.com/rss/search?" ++ E) = ("//" ++ N)%string)
    by reflexivity.
  assert (H3 : starts_with "//" ("//" ++ N) = true) by reflexivity.
  assert (H4 : substring 2 (String.length ("//" ++ N)) ("//" ++ N) = N).
  { change (substring 2 (String.length ("//" ++ N)) ("//" ++ N))
      with (substring 0 (S (S (String.length N))) N).
    apply substring_0_ge. lia. }
  assert (H5 : UrlLib.split_netloc N = ("news.google.com", R)) by reflexivity.
  assert (H6 : split_once "#" R = None).
  { unfold R. rewrite (split_once_app _ "/rss/search?" E) by (vm_compute; intuition discriminate).
    rewrite (split_once_notin _ E Hh). reflexivity. }
  assert (H7 : split_once "?" R = Some ("/rss/search", E)) by reflexivity.
  unfold UrlLib.urlparse. cbv zeta. rewrite H1, Hr, H2, H3, H4, H5.
  cbv beta iota. rewrite H6, H7. reflexivity.
Qed.

End UrlProps.

Module UrlQueryProps.
Import Py UrlEncode StripProps UrlProps.

Lemma piece_no_amp kv : ~ In "&"%char (L (piece kv)).
Proof.
  unfold piece. rewrite !L_app. intros Hin. apply in_app_iff in Hin as [Hin|Hin].
  - exact (notin_of_ok okP "&"%char _ eq_refl (quote_plus_okP _) Hin).
  - simpl in Hin. destruct Hin as [H|Hin]; [discriminate|].
    exact (notin_of_ok okP "&"%char _ eq_refl (quote_plus_okP _) Hin).
Qed.

Lemma split_piece kv :
  split_once "=" (piece kv) = Some (quote_plus (fst kv), quote_plus (snd kv)).
Proof.
  unfold piece. rewrite split_once_app by exact (notin_of_ok okP "="%char _ eq_refl (quote_plus_okP _)).
  simpl. rewrite append_nil_r. reflexivity.
Qed.

Lemma piece_nonempty kv : is_empty (piece kv) = false.
Proof. unfold piece. destruct (quote_plus (fst kv)); reflexivity. Qed.

(** [parse_qsl(urlencode(params))] gives back the pairs whose value is not
    empty (with [keep_blank_values=False]). *)
Lemma parse_qsl_urlencode params :
  UrlLib.parse_qsl unquote_plus_pct (urlencode params) =
  flat_map (fun kv => if is_empty (snd kv) then [] else [kv]) params.
Proof.
  unfold UrlLib.parse_qsl, urlencode. destruct params as [|kv0 rest]; [reflexivity|].
  change (fun kv : string * string => (quote_plus (fst kv) ++ "=" ++ quote_plus (snd kv))%string)
    with piece.
  rewrite (split_all_join "&" (map piece (kv0 :: rest))).
  - rewrite flat_map_concat_map, map_map, <- flat_map_concat_map.
    apply flat_map_ext. intros kv. rewrite piece_nonempty, split_piece. simpl.
    rewrite quote_plus_empty. destruct (is_empty (snd kv)); [reflexivity|].
    rewrite !unquote_quote_plus. destruct kv. reflexivity.
  - discriminate.
  - apply Forall_forall. intros x Hx. apply in_map_iff in Hx as (kv & <- & _). apply piece_no_amp.
Qed.

Lemma has_operator_nonempty s : NewsRss.has_operator s = true -> is_empty s = false.
Proof. destruct s; [discriminate | reflexivity]. Qed.

Lemma has_operator_quote s : NewsRss.has_operator (Cascade.quote s) = true.
Proof. reflexivity. Qed.

Definition sent_q (query : string) : string :=
  if NewsRss.has_operator (strip query) then strip query else Cascade.quote (strip query).

Lemma build_as_urlencode query lang country :
  NewsRss.build_google_news_rss query lang country =
  ("https://news.google.com/rss/search?" ++
   urlencode [("q", sent_q query); ("hl", lang); ("gl", country); ("ceid", country ++ ":" ++ lang)])%string.
Proof. reflexivity. Qed.

Lemma gn_rss_parse query lang country :
  exists qs, UrlLib.urlparse (NewsRss.build_google_news_rss query lang country)
               = Some ("news.google.com", qs) /\
    UrlLib.qs_get unquote_plus_pct qs "q" = [sent_q query] /\
    UrlLib.qs_get unquote_plus_pct qs "hl" = (if is_empty lang then [] else [lang]) /\
    UrlLib.qs_get unquote_plus_pct qs "gl" = (if is_empty country then [] else [country]) /\
    UrlLib.qs_get unquote_plus_pct qs "ceid" = [(country ++ ":" ++ lang)%string].
Proof.
  rewrite build_as_urlencode. eexists. split; [apply urlparse_gn, urlencode_okE|].
  unfold UrlLib.qs_get. rewrite parse_qsl_urlencode.
  assert (Hq : is_empty (sent_q query) = false).
  { unfold sent_q. destruct (NewsRss.has_operator (strip query)) eqn:E;
      [apply has_operator_nonempty; exact E | reflexivity]. }
  assert (Hc : is_empty (country ++ ":" ++ lang) = false) by (destruct country; reflexivity).
  cbn [flat_map snd app]. rewrite Hq, Hc.
  destruct (is_empty lang), (is_empty country); repeat split; reflexivity.
Qed.

Lemma sent_q_fixed query : sent_q (sent_q query) = sent_q query.
Proof.
  unfold sent_q. destruct (NewsRss.has_operator (strip query)) eqn:E.
  - rewrite strip_idem, E. reflexivity.
  - rewrite strip_quote, has_operator_quote. reflexivity.
Qed.

End UrlQueryProps.

Section GoogleNewsRssProps.
Import Py UrlEncode NewsRss UrlQueryProps.

(** X1: the Google News search URL built by [build_google_news_rss] reads
    back through [urlparse] and [parse_qs]: its host is [news.google.com]
    and its [q] parameter is the stripped query, wrapped in double quotes
    unless it already holds a search operator (a double quote, [ OR ],
    [site:] or a parenthesis); [hl] and [gl] are the language and country (absent when
    empty) and [ceid] is [country:lang]. *)
Theorem google_news_rss_round_trip (query lang country : string) :
  let q := strip query in
  exists qs, UrlLib.urlparse (build_google_news_rss query lang country)
               = Some ("news.google.com", qs) /\
    UrlLib.qs_get unquote_plus_pct qs "q" = [if has_operator q then q else Cascade.quote q] /\
    UrlLib.qs_get unquote_plus_pct qs "hl" = (if is_empty lang then [] else [lang]) /\
    UrlLib.qs_get unquote_plus_pct qs "gl" = (if is_empty country then [] else [country]) /\
    UrlLib.qs_get unquote_plus_pct qs "ceid" = [(country ++ ":" ++ lang)%string].
Proof. cbv zeta. apply gn_rss_parse. Qed.

(** X2: the query [build_google_news_rss] sends is a fixed point: building
    the URL again from the [q] value read back from it gives the same URL
    (the quotes are not doubled and no further change is made). *)
Theorem google_news_rss_q_fixed (query lang country : string) :
  exists qs, UrlLib.urlparse (build_google_news_rss query lang country)
               = Some ("news.google.com", qs) /\
    forall v, In v (UrlLib.qs_get unquote_plus_pct qs "q") ->
      build_google_news_rss v lang country = build_google_news_rss query lang country.
Proof.
  destruct (gn_rss_parse query lang country) as (qs & Hp & Hq & _). exists qs. split; [exact Hp|].
  rewrite Hq. intros v [<-|[]]. rewrite !build_as_urlencode, sent_q_fixed. reflexivity.
Qed.
End GoogleNewsRssProps.

(* ------------------------------------------------------------------ *)
(** ** [search_local]: re-ranking, the result list, domains, city hits *)

Module LocalProps.
Import Py NewsFetcher SearchLocal.

Lemma existsb_eqb_In i l : existsb (Nat.eqb i) l = true <-> In i l.
Proof.
  rewrite existsb_exists. split.
  - intros (x & Hx & E). apply Nat.eqb_eq in E. subst. exact Hx.
  - intros H. exists i. split; [exact H | apply Nat.eqb_refl].
Qed.

Lemma dedupe_idx_props seen l :
  NoDup (dedupe_idx seen l) /\ (forall i, In i (dedupe_idx seen l) -> In i l /\ ~ In i seen).
Proof.
  revert seen. induction l as [|x l IH]; intros seen; simpl.
  - split; [constructor | intros _ []].
  - destruct (existsb (Nat.eqb x) seen) eqn:E.
    + destruct (IH seen) as (H1 & H2). split; [exact H1|].
      intros i Hi. destruct (H2 i Hi). split; [right|]; assumption.
    + destruct (IH (x :: seen)) as (H1 & H2). split.
      * constructor; [|exact H1]. intros Hx. destruct (H2 x Hx) as (_ & Hn). apply Hn. left. reflexivity.
      * intros i [<-|Hi].
        -- split; [left; reflexivity|]. intros Hs. apply existsb_eqb_In in Hs. congruence.
        -- destruct (H2 i Hi) as (Hl & Hn). split; [right; exact Hl|]. intros Hs. apply Hn. right. exact Hs.
Qed.

Lemma llm_indices_lt len toks i : In i (llm_indices len toks) -> (i < len)%nat.
Proof.
  unfold llm_indices. rewrite in_flat_map. intros (tok & _ & Hin).
  destruct (py_int tok) as [k|]; [|contradiction].
  destruct ((1 <=? k)%Z && (k <=? Z.of_nat len)%Z) eqn:E; [|contradiction].
  destruct Hin as [<-|[]]. apply andb_true_iff in E as [E1 E2]. apply Z.leb_le in E1, E2. lia.
Qed.

Lemma fill_idx_app seen tk is r :
  exists e, fill_idx seen tk is r = (r ++ e)%list /\ (forall i, In i e -> In i is).
Proof.
  revert r. induction is as [|i rest IH]; intros r; simpl.
  - exists []. rewrite app_nil_r. split; [reflexivity | intros _ []].
  - destruct (negb (existsb (Nat.eqb i) seen) && (Z.of_nat (length r) <? tk)%Z).
    + destruct (IH (r ++ [i])%list) as (e & He & Hi). exists (i :: e).
      rewrite He, <- app_assoc. split; [reflexivity|].
      intros j [<-|Hj]; [left; reflexivity | right; exact (Hi j Hj)].
    + destruct (IH r) as (e & He & Hi). exists e. split; [exact He|].
      intros j Hj. right. exact (Hi j Hj).
Qed.

Lemma fill_idx_nodup seen tk is r :
  NoDup r -> NoDup is -> (forall i, In i is -> In i r -> In i seen) ->
  NoDup (fill_idx seen tk is r).
Proof.
  revert r. induction is as [|i rest IH]; intros r Hr His Hdis; simpl; [exact Hr|].
  inversion His as [|? ? Hni Hrest]; subst.
  destruct (negb (existsb (Nat.eqb i) seen) && (Z.of_nat (length r) <? tk)%Z) eqn:E.
  - apply andb_true_iff in E as [E _]. apply negb_true_iff in E.
    assert (Hir : ~ In i r).
    { intros Hir. apply (Hdis i (or_introl eq_refl)), existsb_eqb_In in Hir. congruence. }
    apply IH; [| exact Hrest |].
    + apply (Permutation_NoDup (Permutation_cons_append r i)). constructor; assumption.
    + intros j Hj Hjr. apply in_app_iff in Hjr as [Hjr|[<-|[]]].
      * apply Hdis; [right; exact Hj | exact Hjr].
      * contradiction (Hni Hj).
  - apply IH; [exact Hr | exact Hrest |]. intros j Hj Hjr. apply Hdis; [right; exact Hj | exact Hjr].
Qed.

Lemma fill_idx_length seen tk is r :
  Z.of_nat (length (fill_idx seen tk is r)) =
  if (tk <=? Z.of_nat (length r))%Z then Z.of_nat (length r)
  else Z.min tk (Z.of_nat (length r + length (filter (fun i => negb (existsb (Nat.eqb i) seen)) is))).
Proof.
  revert r. induction is as [|i rest IH]; intros r; cbn [fill_idx filter].
  - cbn [length]. rewrite Nat.add_0_r. destruct (Z.leb_spec tk (Z.of_nat (length r))); lia.
  - destruct (existsb (Nat.eqb i) seen); cbn [negb andb].
    + apply IH.
    + destruct (Z.ltb_spec (Z.of_nat (length r)) tk).
      * rewrite IH, length_app. cbn [length].
        destruct (Z.leb_spec tk (Z.of_nat (length r + 1))), (Z.leb_spec tk (Z.of_nat (length r))); lia.
      * rewrite IH. destruct (Z.leb_spec tk (Z.of_nat (length r))); lia.
Qed.

Lemma filter_split_length {A} (p : A -> bool) l :
  (length (filter (fun x => negb (p x)) l) + length (filter p l))%nat = length l.
Proof. induction l as [|x l IH]; simpl; [reflexivity|]. destruct (p x); simpl; lia. Qed.

Lemma filter_notin_seq_length seen len :
  NoDup seen -> (forall i, In i seen -> (i < len)%nat) ->
  (length (filter (fun i => negb (existsb (Nat.eqb i) seen)) (seq 0 len)) + length seen)%nat = len.
Proof.
  intros Hnd Hlt.
  assert (Hp : length (filter (fun i => existsb (Nat.eqb i) seen) (seq 0 len)) = length seen).
  { apply Nat.le_antisymm; apply NoDup_incl_length.
    - apply NoDup_filter, seq_NoDup.
    - intros i Hi. apply filter_In in Hi as [_ Hi]. apply existsb_eqb_In. exact Hi.
    - exact Hnd.
    - intros i Hi. apply filter_In. split.
      + apply in_seq. specialize (Hlt i Hi). lia.
      + apply existsb_eqb_In. exact Hi. }
  rewrite <- Hp. rewrite (filter_split_length (fun i => existsb (Nat.eqb i) seen)). apply length_seq.
Qed.

Lemma nodup_py_take {A} n (l : list A) : NoDup l -> NoDup (py_take n l).
Proof.
  intros H. rewrite <- (map_id (py_take n l)). apply ListProps.nodup_map_py_take. rewrite map_id. exact H.
Qed.

(** The positions [_rerank_with_openai] takes from the model's reply. *)
Lemma rerank_positions_props len text tk :
  NoDup (rerank_positions len text tk) /\
  Forall (fun i => (i < len)%nat) (rerank_positions len text tk) /\
  ((0 <= tk)%Z -> length (rerank_positions len text tk) = Nat.min (Z.to_nat tk) len).
Proof.
  unfold rerank_positions. cbv zeta.
  set (idxs := llm_indices len _).
  set (r := dedupe_idx [] idxs).
  destruct (dedupe_idx_props [] idxs) as (Hr & Hrin). fold r in Hr, Hrin.
  assert (Hrl : forall i, In i r -> (i < len)%nat).
  { intros i Hi. exact (llm_indices_lt _ _ _ (proj1 (Hrin i Hi))). }
  destruct (fill_idx_app r tk (seq 0 len) r) as (e & He & Hein).
  assert (Hnd : NoDup (fill_idx r tk (seq 0 len) r)).
  { apply fill_idx_nodup; [exact Hr | apply seq_NoDup | intros i _ Hi; exact Hi]. }
  split; [|split].
  - apply nodup_py_take. exact Hnd.
  - apply Forall_forall. intros i Hi. apply ListProps.in_py_take in Hi. rewrite He in Hi.
    apply in_app_iff in Hi as [Hi|Hi]; [apply Hrl; exact Hi|].
    apply Hein, in_seq in Hi. lia.
  - intros Htk. rewrite ListProps.py_take_length by exact Htk.
    pose proof (fill_idx_length r tk (seq 0 len) r) as HL.
    pose proof (filter_notin_seq_length r len Hr Hrl) as HC.
    case_eq (tk <=? Z.of_nat (length r))%Z; intros E; rewrite E in HL;
      [apply Z.leb_le in E | apply Z.leb_gt in E]; lia.
Qed.

Lemma at_positions_length {A} (items : list A) ps :
  Forall (fun i => (i < length items)%nat) ps -> length (at_positions items ps) = length ps.
Proof.
  induction ps as [|p ps IH]; intros H; [reflexivity|].
  inversion H as [|? ? Hp Hps]; subst. unfold at_positions. cbn [flat_map].
  destruct (nth_error items p) eqn:E.
  - cbn [app length]. f_equal. apply IH. exact Hps.
  - apply nth_error_None in E. lia.
Qed.

Lemma at_positions_in {A} (items : list A) ps x :
  In x (at_positions items ps) -> exists p, In p ps /\ nth_error items p = Some x.
Proof.
  unfold at_positions. rewrite in_flat_map. intros (p & Hp & Hx).
  destruct (nth_error items p) eqn:E; [|contradiction].
  destruct Hx as [<-|[]]. exists p. split; assumption.
Qed.

Lemma at_positions_nodup_map {A B} (f : A -> B) (items : list A) ps :
  NoDup (map f items) -> NoDup ps -> Forall (fun i => (i < length items)%nat) ps ->
  NoDup (map f (at_positions items ps)).
Proof.
  intros Hk. induction ps as [|p ps IH]; intros Hnd Hlt; [constructor|].
  inversion Hnd as [|? ? Hnp Hnd']; subst. inversion Hlt as [|? ? Hp Hlt']; subst.
  unfold at_positions. cbn [flat_map]. destruct (nth_error items p) as [x|] eqn:E.
  - cbn [app map]. constructor; [|apply IH; assumption].
    intros Hin. apply in_map_iff in Hin as (y & Hxy & Hy).
    apply at_positions_in in Hy as (q & Hq & Ey).
    apply (NoDup_nth_error (map f items)) with (i := p) (j := q) in Hk.
    + subst q. contradiction.
    + rewrite length_map. exact Hp.
    + rewrite !nth_error_map, E, Ey. cbn. rewrite Hxy. reflexivity.
  - apply nth_error_None in E. lia.
Qed.

Lemma at_positions_shift {A} (x : A) l ps : at_positions (x :: l) (map S ps) = at_positions l ps.
Proof. induction ps as [|p ps IH]; [reflexivity|]. unfold at_positions in *. cbn [map flat_map]. rewrite IH. reflexivity. Qed.

Lemma at_positions_nil {A} ps : at_positions (@nil A) ps = [].
Proof. induction ps as [|p ps IH]; [reflexivity|]. unfold at_positions in *. cbn [flat_map]. destruct p; exact IH. Qed.

Lemma at_positions_seq {A} (l : list A) k : at_positions l (seq 0 k) = firstn k l.
Proof.
  revert k. induction l as [|x l IH]; intros [|k]; try reflexivity.
  - rewrite at_positions_nil. reflexivity.
  - cbn [seq firstn]. rewrite <- seq_shift.
    change (at_positions (x :: l) (0 :: map S (seq 0 k)))
      with (x :: at_positions (x :: l) (map S (seq 0 k))).
    rewrite at_positions_shift, IH. reflexivity.
Qed.

Lemma firstn_min_length {A} m (l : list A) : firstn (Nat.min m (length l)) l = firstn m l.
Proof.
  destruct (Nat.le_ge_cases m (length l)).
  - rewrite Nat.min_l by exact H. reflexivity.
  - rewrite Nat.min_r by exact H. rewrite firstn_all, firstn_all2 by exact H. reflexivity.
Qed.

(** Whatever the model replies, [_rerank_with_openai] returns items of
    [items] at pairwise distinct positions, [min(top_k, len(items))] of them. *)
Lemma rerank_props {A} use_openai reply (items : list A) top_k :
  exists ps, NoDup ps /\ Forall (fun i => (i < length items)%nat) ps /\
    _rerank_with_openai use_openai reply items top_k = at_positions items ps /\
    ((0 <= top_k)%Z ->
       length (_rerank_with_openai use_openai reply items top_k) = Nat.min (Z.to_nat top_k) (length items)).
Proof.
  assert (Hfb : exists ps, NoDup ps /\ Forall (fun i => (i < length items)%nat) ps /\
            py_take top_k items = at_positions items ps /\
            ((0 <= top_k)%Z -> length (py_take top_k items) = Nat.min (Z.to_nat top_k) (length items))).
  { destruct (ListProps.py_take_firstn top_k items) as (m & Hm).
    exists (seq 0 (Nat.min m (length items))). split; [apply seq_NoDup|]. split; [|split].
    - apply Forall_forall. intros i Hi. apply in_seq in Hi. lia.
    - rewrite at_positions_seq, firstn_min_length. exact Hm.
    - intros Htk. apply ListProps.py_take_length. exact Htk. }
  unfold _rerank_with_openai.
  destruct (negb use_openai || match items with [] => true | _ => false end); [exact Hfb|].
  destruct reply as [text|]; [|exact Hfb].
  destruct (rerank_positions_props (length items) text top_k) as (H1 & H2 & H3).
  exists (rerank_positions (length items) text top_k). split; [exact H1|]. split; [exact H2|].
  split; [reflexivity|]. intros Htk. rewrite at_positions_length by exact H2. apply H3. exact Htk.
Qed.

Lemma contains_empty_l s : contains EmptyString s = true.
Proof. destruct s; reflexivity. Qed.

Lemma take_nonslash_app h r :
  ~ In "/"%char (StripProps.L h) -> (r = EmptyString \/ exists r', r = String "/" r') ->
  take_nonslash (h ++ r) = h.
Proof.
  intros Hh Hr. induction h as [|c h IH]; cbn [append take_nonslash].
  - destruct Hr as [->|(r' & ->)]; reflexivity.
  - cbn in Hh. destruct (Ascii.eqb_spec c "/"); [subst; tauto|].
    rewrite IH; [reflexivity|]. intros Hin. apply Hh. right. exact Hin.
Qed.

Lemma search_domain_hit s d : match_at s = Some d -> search_domain s = Some d.
Proof. intros H. destruct s; cbn [search_domain]; rewrite H; reflexivity. Qed.

End LocalProps.

Section RerankProps.
Import Py NewsFetcher SearchLocal.

(** X14: whatever the model replies (or if the call fails, or OpenAI is
    off), [_rerank_with_openai] returns items of its input taken at pairwise
    distinct positions, and for [top_k >= 0] exactly
    [min(top_k, len(items))] of them: the completion loop tops up the
    model's picks with the remaining items in order. *)
Theorem rerank_with_openai_distinct {A} (use_openai : bool) (reply : option string)
    (items : list A) (top_k : Z) :
  exists ps, NoDup ps /\ Forall (fun i => (i < length items)%nat) ps /\
    _rerank_with_openai use_openai reply items top_k = at_positions items ps /\
    ((0 <= top_k)%Z ->
       length (_rerank_with_openai use_openai reply items top_k) = Nat.min (Z.to_nat top_k) (length items)).
Proof. apply LocalProps.rerank_props. Qed.
End RerankProps.

Section DomainProps.
Import Py SearchLocal.

(** X16: for a link [https://host] or [http://host], followed by nothing
    or by a path starting with a slash, [_domain_from_link] returns the
    host lowercased (for a non-empty host without a slash). *)
Theorem domain_from_link_host (h r : string) :
  h <> EmptyString -> ~ In "/"%char (StripProps.L h) ->
  (r = EmptyString \/ exists r', r = String "/" r') ->
  _domain_from_link ("https://" ++ h ++ r) = lower h /\
  _domain_from_link ("http://" ++ h ++ r) = lower h.
Proof.
  intros Hne Hh Hr.
  assert (Ht := LocalProps.take_nonslash_app h r Hh Hr).
  assert (He : is_empty h = false) by (destruct h; [congruence | reflexivity]).
  split; unfold _domain_from_link; rewrite LocalProps.search_domain_hit with (d := h); try reflexivity;
    unfold match_at; cbv zeta.
  - change (lower ("https://" ++ h ++ r)) with ("https://" ++ lower (h ++ r))%string.
    change (drop 8 ("https://" ++ h ++ r)) with (h ++ r)%string.
    rewrite Ht, He. reflexivity.
  - change (lower ("http://" ++ h ++ r)) with ("http://" ++ lower (h ++ r))%string.
    change (drop 7 ("http://" ++ h ++ r)) with (h ++ r)%string.
    rewrite Ht, He. reflexivity.
Qed.

(** X17: a city made only of whitespace (non-empty, so it passes [if not
    city]) strips to the empty string, which [in] finds in every text:
    [_score_city_hit] then gives 1 for every title and summary. *)
Theorem score_city_hit_blank_city (title summary c : string) :
  c <> EmptyString -> strip c = EmptyString -> _score_city_hit title summary (Some c) = 1%Z.
Proof.
  intros Hne Hs. unfold _score_city_hit.
  destruct c as [|ch c']; [congruence|]. cbn [is_empty].
  rewrite Hs. cbn [lower]. rewrite LocalProps.contains_empty_l. reflexivity.
Qed.

Lemma domain_from_link_host_witness :
  _domain_from_link ("https://" ++ "News.Example.COM" ++ "/a/b") = "news.example.com" /\
  _domain_from_link ("http://" ++ "News.Example.COM" ++ "/a/b") = "news.example.com".
Proof.
  apply (domain_from_link_host "News.Example.COM" "/a/b").
  - discriminate.
  - intros Hin. cbn in Hin. repeat (destruct Hin as [Hin|Hin]; [discriminate Hin|]). exact Hin.
  - right. exists "a/b". reflexivity.
Defined.

Lemma score_city_hit_blank_city_witness : _score_city_hit "Nota" "resumen" (Some "  ") = 1%Z.
Proof. apply (score_city_hit_blank_city "Nota" "resumen" "  "); [discriminate | reflexivity]. Defined.
End DomainProps.

Section LocalResultProps.
Import Py NewsFetcher SearchLocal.
Variable sha1 : string -> string.
Variable within_days : option string -> Z -> bool.
Variable q_tokens : string -> list string.
Variable fetch_rss : string -> option (list lentry).
Variable use_openai : bool.
Variable chat : list litem -> option string.

(** What every collected candidate satisfies. *)
Definition good_item (days_back : Z) (it : litem) : Prop :=
  l_title it <> EmptyString /\ strip (l_title it) = l_title it /\
  l_url it <> EmptyString /\ strip (l_url it) = l_url it /\
  l_id it = sha1 (l_url it) /\ l_source it = _domain_from_link (l_url it) /\
  within_days (l_published_at it) days_back = true.

Definition collect_inv (d : Z) (seen : list string) (acc : list litem) : Prop :=
  NoDup (map l_id acc) /\ (forall it, In it acc -> In (l_id it) seen) /\
  (forall it, In it acc -> good_item d it).

Lemma normalize_entry_good e it d :
  _normalize_entry sha1 e = Some it -> within_days (l_published_at it) d = true ->
  forall h, good_item d (set_city_hit it h).
Proof.
  unfold _normalize_entry. intros Hn Hw h.
  destruct (is_empty (strip (or_empty (le_link e))) || is_empty (strip (or_empty (le_title e)))) eqn:E;
    [discriminate|].
  injection Hn as <-. apply orb_false_iff in E as [E1 E2].
  unfold good_item, set_city_hit. cbn [l_title l_url l_id l_source l_published_at] in *.
  split; [intros H; rewrite H in E2; discriminate|]. split; [apply StripProps.strip_idem|].
  split; [intros H; rewrite H in E1; discriminate|]. split; [apply StripProps.strip_idem|].
  split; [reflexivity|]. split; [reflexivity|]. exact Hw.
Qed.

Lemma collect_inv_add d seen acc it :
  collect_inv d seen acc -> existsb (String.eqb (l_id it)) seen = false -> good_item d it ->
  collect_inv d (l_id it :: seen) (acc ++ [it])%list.
Proof.
  intros (H1 & H2 & H3) Hx Hg. split; [|split].
  - rewrite map_app. apply (Permutation_NoDup (Permutation_cons_append _ _)). constructor; [|exact H1].
    intros Hin. apply in_map_iff in Hin as (y & Hy & Hin). apply H2 in Hin. rewrite Hy in Hin.
    assert (existsb (String.eqb (l_id it)) seen = true).
    { apply existsb_exists. exists (l_id it). split; [exact Hin | apply String.eqb_refl]. }
    congruence.
  - intros y Hy. apply in_app_iff in Hy as [Hy|[<-|[]]]; [right; apply H2; exact Hy | left; reflexivity].
  - intros y Hy. apply in_app_iff in Hy as [Hy|[<-|[]]]; [apply H3; exact Hy | exact Hg].
Qed.

Lemma collect_entries_inv city d cap es seen acc :
  collect_inv d seen acc ->
  collect_inv d (fst (collect_entries sha1 within_days city d cap es seen acc))
                (snd (collect_entries sha1 within_days city d cap es seen acc)).
Proof.
  revert seen acc. induction es as [|e rest IH]; intros seen acc Hinv; [exact Hinv|].
  cbn [collect_entries]. destruct (_normalize_entry sha1 e) as [it0|] eqn:En; [|apply IH; exact Hinv].
  destruct (within_days (l_published_at it0) d) eqn:Ew; cbn [negb]; [|apply IH; exact Hinv].
  set (it := set_city_hit it0 (_score_city_hit (l_title it0) (l_summary it0) city)).
  destruct (existsb (String.eqb (l_id it)) seen) eqn:Ex; [apply IH; exact Hinv|].
  assert (Hn := collect_inv_add d seen acc it Hinv Ex (normalize_entry_good e it0 d En Ew _)).
  destruct (cap <=? Z.of_nat (length (acc ++ [it])))%Z; [exact Hn | apply IH; exact Hn].
Qed.

Lemma collect_feeds_inv city d cap feeds seen acc :
  collect_inv d seen acc ->
  exists seen', collect_inv d seen' (collect_feeds sha1 within_days city d cap feeds seen acc).
Proof.
  revert seen acc. induction feeds as [|f rest IH]; intros seen acc Hinv; [exists seen; exact Hinv|].
  cbn [collect_feeds].
  pose proof (collect_entries_inv city d cap f seen acc Hinv) as Hf.
  destruct (collect_entries sha1 within_days city d cap f seen acc) as [seen' acc'].
  cbn [fst snd] in Hf.
  destruct (cap <=? Z.of_nat (length acc'))%Z; [exists seen'; exact Hf | apply IH; exact Hf].
Qed.

(** X15: [search_local_news] returns at most [min(limit, 50)] results
    (for [limit >= 0]) with pairwise distinct ids; each has a non-empty,
    stripped title and url, the id [_hash_id(url)], the source
    [_domain_from_link(url)], and a date that [_within_days] accepts. *)
Theorem search_local_news_results (query : string) (city country lang : option string)
    (days_back limit : Z) :
  let out := search_local_news sha1 within_days q_tokens fetch_rss use_openai chat
               query city country lang days_back limit in
  NoDup (map o_id out) /\
  (forall r, In r out ->
     o_title r <> EmptyString /\ strip (o_title r) = o_title r /\
     o_url r <> EmptyString /\ strip (o_url r) = o_url r /\
     o_id r = sha1 (o_url r) /\ o_source r = _domain_from_link (o_url r) /\
     within_days (o_published_at r) days_back = true) /\
  ((0 <= limit)%Z -> (length out <= Z.to_nat (Z.min limit 50))%nat).
Proof.
  unfold search_local_news. cbv zeta.
  set (collected := collect_feeds sha1 within_days city days_back _ _ [] []).
  destruct (collect_feeds_inv city days_back (Z.max (limit * 2) limit)
              (flat_map (fun u => match fetch_rss u with Some es => [es] | None => [] end)
                 (_rss_sources query city country lang)) [] [])
    as (seen' & H1 & _ & H3).
  { split; [constructor|]. split; intros _ []. }
  fold collected in H1, H3.
  set (sorted := sort_desc (fun it => _score_item q_tokens it query) collected).
  destruct (SortProps.sort_desc_spec (fun it => _score_item q_tokens it query) collected) as (_ & Hp & _).
  fold sorted in Hp.
  assert (Hs1 : NoDup (map l_id sorted)).
  { apply (Permutation_NoDup (Permutation_map _ (Permutation_sym Hp))). exact H1. }
  assert (Hs3 : forall it, In it sorted -> good_item days_back it).
  { intros it Hin. apply H3. apply (Permutation_in _ Hp). exact Hin. }
  destruct (LocalProps.rerank_props use_openai (chat sorted) sorted (Z.min limit 50))
    as (ps & Hnd & Hlt & Hrr & Hlen).
  set (top := _rerank_with_openai use_openai (chat sorted) sorted (Z.min limit 50)) in *.
  assert (Ht1 : NoDup (map l_id top)).
  { rewrite Hrr. apply LocalProps.at_positions_nodup_map; assumption. }
  assert (Ht3 : forall it, In it top -> good_item days_back it).
  { intros it Hin. rewrite Hrr in Hin. apply LocalProps.at_positions_in in Hin as (p & _ & Ep).
    apply Hs3. exact (nth_error_In _ _ Ep). }
  split; [|split].
  - rewrite map_map. change (map (fun x => o_id (pop_city_hit x)) (py_take limit top))
      with (map l_id (py_take limit top)).
    apply ListProps.nodup_map_py_take. exact Ht1.
  - intros r Hr. apply in_map_iff in Hr as (it & <- & Hin). apply ListProps.in_py_take in Hin.
    exact (Ht3 it Hin).
  - intros Hl. rewrite length_map, ListProps.py_take_length by exact Hl.
    rewrite Hlen by lia. lia.
Qed.
End LocalResultProps.
